(** * McCabe complexity analyzer: extractor and scorer

    A shallow embedding of [extract_methods] and
    [calculate_mccabe_complexity] of [mccabe_analyzer.py], together with
    the part of Python's [re] and [str] that those two functions use.

    Text is a list of characters; a character is a code point below 256,
    so the classes [\s] and [\w] are the Unicode ones restricted to that
    range. *)

From Stdlib Require Import String Ascii List ZArith Lia Bool Arith.
From Stdlib Require Import Sorted Permutation.
Import ListNotations.
Open Scope list_scope.

Set Implicit Arguments.

(** ** Text *)

Definition str := list ascii.

Definition L (s : string) : str := list_ascii_of_string s.

Definition newline : ascii := ascii_of_nat 10.
Definition dquote : ascii := ascii_of_nat 34.
Definition squote : ascii := ascii_of_nat 39.
Definition backslash : ascii := ascii_of_nat 92.

Definition eqc (a b : ascii) : bool := Ascii.eqb a b.

Definition code (c : ascii) : N := N_of_ascii c.

Definition between (lo hi : N) (c : ascii) : bool :=
  (N.leb lo (code c) && N.leb (code c) hi)%bool.

(** [str.isspace] on one character, which is also the class [\s]:
    tab .. carriage return, the four separators 28 .. 31, space,
    next-line (133) and no-break space (160). *)
Definition is_space (c : ascii) : bool :=
  between 9 13 c || between 28 32 c || N.eqb (code c) 133 || N.eqb (code c) 160.

(** The class [\w]: alphanumeric characters and the underscore. *)
Definition is_word (c : ascii) : bool :=
  between 48 57 c || between 65 90 c || between 97 122 c || N.eqb (code c) 95
  || N.eqb (code c) 170 || between 178 179 c || N.eqb (code c) 181
  || between 185 186 c || between 188 190 c
  || between 192 214 c || between 216 246 c || between 248 255 c.

Module Str.

Fixpoint eqb (a b : str) : bool :=
  match a, b with
  | [], [] => true
  | x :: a', y :: b' => eqc x y && eqb a' b'
  | _, _ => false
  end.

(** [s.startswith(p)] *)
Fixpoint startswith (p s : str) : bool :=
  match p, s with
  | [], _ => true
  | x :: p', y :: s' => eqc x y && startswith p' s'
  | _ :: _, [] => false
  end.

(** [p in s] for strings *)
Fixpoint contains (p s : str) : bool :=
  startswith p s ||
  match s with
  | [] => false
  | _ :: s' => contains p s'
  end.

(** [s.split('\n')], which always yields at least one piece. *)
Fixpoint split_lines (s : str) : list str :=
  match s with
  | [] => [[]]
  | c :: s' =>
      if eqc c newline then [] :: split_lines s'
      else match split_lines s' with
           | l :: ls => (c :: l) :: ls
           | [] => [[c]]
           end
  end.

(** ['\n'.join(ls)] *)
Fixpoint join_lines (ls : list str) : str :=
  match ls with
  | [] => []
  | [l] => l
  | l :: ls' => l ++ newline :: join_lines ls'
  end.

Fixpoint lstrip (s : str) : str :=
  match s with
  | c :: s' => if is_space c then lstrip s' else s
  | [] => []
  end.

(** [s.strip()] *)
Definition strip (s : str) : str := rev (lstrip (rev (lstrip s))).

(** [x in xs] for a list of strings *)
Fixpoint mem (x : str) (xs : list str) : bool :=
  match xs with
  | [] => false
  | y :: xs' => eqb x y || mem x xs'
  end.

End Str.

(** ** Regular expressions

    The fragment of Python's [re] syntax that the analyzer's patterns use,
    matched the way [re] matches: by backtracking, leftmost alternative and
    longest repetition first (shortest first for the lazy star). *)

Module Re.

Inductive regex : Type :=
| Eps
| Chr (p : ascii -> bool)        (* one character of a class *)
| Seq (r1 r2 : regex)
| Alt (r1 r2 : regex)            (* r1|r2, r1 tried first *)
| Star (r : regex)               (* r*, greedy *)
| LazyStar (r : regex)           (* r*?, lazy *)
| WordB                          (* \b *)
| Eol (multiline : bool)         (* $ *)
| Group (n : nat) (r : regex).   (* the n-th capturing group *)

(** A position in the subject: the character before it (for [\b]), the
    text from it on, and the groups captured so far. *)
Record mstate : Type := MState {
  prev : option ascii;
  rest : str;
  caps : list (nat * str)
}.

Definition word_before (st : mstate) : bool :=
  match prev st with Some c => is_word c | None => false end.

Definition word_after (st : mstate) : bool :=
  match rest st with c :: _ => is_word c | [] => false end.

Definition orelse (a : option mstate) (b : option mstate) : option mstate :=
  match a with Some x => Some x | None => b end.

Definition progressed (st st' : mstate) : bool :=
  length (rest st') <? length (rest st).

(** Greedy repetition of [body]: another round first, the continuation
    if that fails.  A round that consumes nothing is abandoned, as in
    [re]; [n] bounds the number of rounds by the length of the text. *)
Fixpoint star_loop (body : mstate -> (mstate -> option mstate) -> option mstate)
    (k : mstate -> option mstate) (n : nat) (st : mstate) : option mstate :=
  match n with
  | O => k st
  | S n' =>
      orelse
        (body st (fun st' => if progressed st st' then star_loop body k n' st' else None))
        (k st)
  end.

(** Lazy repetition: the continuation first, another round if it fails. *)
Fixpoint lazy_loop (body : mstate -> (mstate -> option mstate) -> option mstate)
    (k : mstate -> option mstate) (n : nat) (st : mstate) : option mstate :=
  match n with
  | O => k st
  | S n' =>
      orelse
        (k st)
        (body st (fun st' => if progressed st st' then lazy_loop body k n' st' else None))
  end.

Fixpoint rmatch (r : regex) (st : mstate) (k : mstate -> option mstate)
    {struct r} : option mstate :=
  match r with
  | Eps => k st
  | Chr p =>
      match rest st with
      | c :: cs => if p c then k (MState (Some c) cs (caps st)) else None
      | [] => None
      end
  | Seq r1 r2 => rmatch r1 st (fun st' => rmatch r2 st' k)
  | Alt r1 r2 => orelse (rmatch r1 st k) (rmatch r2 st k)
  | Star r' => star_loop (rmatch r') k (length (rest st)) st
  | LazyStar r' => lazy_loop (rmatch r') k (length (rest st)) st
  | WordB => if xorb (word_before st) (word_after st) then k st else None
  | Eol m =>
      match rest st with
      | [] => k st
      | c :: cs =>
          if eqc c newline && (m || match cs with [] => true | _ => false end)
          then k st else None
      end
  | Group n r' =>
      rmatch r' st (fun st' =>
        k (MState (prev st') (rest st')
             ((n, firstn (length (rest st) - length (rest st')) (rest st)) :: caps st')))
  end.

(** A match found by a scan: the text skipped before it and the state at
    its end. *)
Definition found : Type := (str * mstate)%type.

(** The leftmost match at or after the current position.  With
    [must_advance] an empty match at the current position is refused
    (the scan has just produced one there). *)
Fixpoint search_from (r : regex) (must_advance : bool) (p : option ascii) (s : str)
    {struct s} : option found :=
  match rmatch r (MState p s [])
          (fun e => if must_advance && (length (rest e) =? length s) then None else Some e) with
  | Some e => Some ([], e)
  | None =>
      match s with
      | [] => None
      | c :: s' =>
          match search_from r false (Some c) s' with
          | Some (skipped, e) => Some (c :: skipped, e)
          | None => None
          end
      end
  end.

(** [re.search(r, s)] *)
Definition search (r : regex) (s : str) : option found := search_from r false None s.

(** [m.group(n)] *)
Fixpoint group (n : nat) (cs : list (nat * str)) : str :=
  match cs with
  | [] => []
  | (m, t) :: cs' => if n =? m then t else group n cs'
  end.

Definition empty_match (skipped : str) (e : mstate) (s : str) : bool :=
  length skipped + length (rest e) =? length s.

(** [len(re.findall(r, s))]: the matches are taken left to right and do
    not overlap. *)
Fixpoint count_from (fuel : nat) (r : regex) (ma : bool) (p : option ascii) (s : str) : nat :=
  match fuel with
  | O => 0
  | S fuel' =>
      match search_from r ma p s with
      | None => 0
      | Some (skipped, e) =>
          S (count_from fuel' r (empty_match skipped e s) (prev e) (rest e))
      end
  end.

Definition scan_fuel (s : str) : nat := 2 * length s + 2.

Definition findall_count (r : regex) (s : str) : nat :=
  count_from (scan_fuel s) r false None s.

(** [re.sub(r, repl, s)] for a replacement without group references. *)
Fixpoint sub_from (fuel : nat) (r : regex) (repl : str) (ma : bool) (p : option ascii)
    (s : str) : str :=
  match fuel with
  | O => s
  | S fuel' =>
      match search_from r ma p s with
      | None => s
      | Some (skipped, e) =>
          skipped ++ repl ++ sub_from fuel' r repl (empty_match skipped e s) (prev e) (rest e)
      end
  end.

Definition sub (r : regex) (repl : str) (s : str) : str :=
  sub_from (scan_fuel s) r repl false None s.

(** *** Pattern syntax *)

Definition chr (c : ascii) : regex := Chr (eqc c).
Definition not_chr (c : ascii) : regex := Chr (fun x => negb (eqc c x)).
Definition any_of (cs : str) : regex := Chr (fun x => existsb (eqc x) cs).
Definition none_of (cs : str) : regex := Chr (fun x => negb (existsb (eqc x) cs)).
Definition space : regex := Chr is_space.                       (* \s *)
Definition word : regex := Chr is_word.                         (* \w *)
Definition dot : regex := Chr (fun x => negb (eqc x newline)).  (* . *)
Definition dot_all : regex := Chr (fun _ => true).              (* . under DOTALL *)
Definition plus (r : regex) : regex := Seq r (Star r).          (* r+ *)
Definition opt (r : regex) : regex := Alt r Eps.                (* r? *)

Fixpoint lit (s : str) : regex :=
  match s with
  | [] => Eps
  | c :: s' => Seq (chr c) (lit s')
  end.

Fixpoint seqs (rs : list regex) : regex :=
  match rs with
  | [] => Eps
  | [r] => r
  | r :: rs' => Seq r (seqs rs')
  end.

Fixpoint alts (rs : list regex) : regex :=
  match rs with
  | [] => Chr (fun _ => false)
  | [r] => r
  | r :: rs' => Alt r (alts rs')
  end.

Definition kw (s : string) : regex := lit (L s).

End Re.

Import Re.

(** ** The scorer: [calculate_mccabe_complexity] *)

Module Scorer.

(** The pattern of a literal delimited by the quote [q]: the quote, any
    run of characters other than the quote and the backslash, any number
    of groups made of a backslash, one character that is not a newline
    and another such run, and the quote again. *)
Definition literal_pattern (q : ascii) : regex :=
  seqs [chr q;
        Star (none_of [q; backslash]);
        Star (seqs [chr backslash; dot; Star (none_of [q; backslash])]);
        chr q].

(** [//.*$] under MULTILINE *)
Definition line_comment_pattern : regex :=
  seqs [kw "//"; Star dot; Eol true].

(** [/\*.*?\*/] under DOTALL *)
Definition block_comment_pattern : regex :=
  seqs [kw "/*"; LazyStar dot_all; kw "*/"].

Definition strip_strings (s : str) : str := sub (literal_pattern dquote) [dquote; dquote] s.
Definition strip_chars (s : str) : str := sub (literal_pattern squote) [squote; squote] s.
Definition strip_line_comments (s : str) : str := sub line_comment_pattern [] s.
Definition strip_block_comments (s : str) : str := sub block_comment_pattern [] s.

(** The four substitutions, in the order the function applies them. *)
Definition normalize (method_body : str) : str :=
  strip_block_comments (strip_line_comments (strip_chars (strip_strings method_body))).

(** [\belse\s+if\s*\(] *)
Definition else_if_pattern : regex :=
  seqs [WordB; kw "else"; plus space; kw "if"; Star space; kw "("].

(** [\bKEYWORD\s*OPEN] *)
Definition keyword_then (k open : string) : regex :=
  seqs [WordB; kw k; Star space; kw open].

Definition decision_patterns : list (regex * string) :=
  [ (keyword_then "if" "(", "if");
    (else_if_pattern, "else if");
    (keyword_then "for" "(", "for");
    (keyword_then "foreach" "(", "foreach");
    (keyword_then "while" "(", "while");
    (keyword_then "do" "{", "do");
    (seqs [WordB; kw "case"; plus space; plus (not_chr ":"); kw ":"], "case");
    (keyword_then "catch" "(", "catch");
    (keyword_then "catch" "{", "catch");
    (kw "&&", "&&");
    (kw "||", "||");
    (seqs [kw "?"; not_chr "?"], "?:");
    (kw "??", "??") ]%string.

(** The loop over [decision_patterns], on the text as normalized. *)
Definition tally (text : str) (complexity : Z) : Z :=
  fold_left
    (fun complexity pn => (complexity + Z.of_nat (findall_count (fst pn) text))%Z)
    decision_patterns complexity.

Definition score_text (text : str) : Z :=
  let complexity := tally text 1%Z in
  let else_if_count := Z.of_nat (findall_count else_if_pattern text) in
  Z.max 1 (complexity - else_if_count).

Definition calculate_mccabe_complexity (method_body : str) : Z :=
  score_text (normalize method_body).

End Scorer.

Import Scorer.

(** ** Loops and failure

    A [while] loop is run with fuel; an index out of range is an error of
    its own, so that "never raises" is a statement about the result. *)

Inductive result (A : Type) : Type :=
| Ok (a : A)
| IndexError
| OutOfFuel.

Arguments Ok {A} a.
Arguments IndexError {A}.
Arguments OutOfFuel {A}.

Definition bind {A B : Type} (m : result A) (f : A -> result B) : result B :=
  match m with
  | Ok a => f a
  | IndexError => IndexError
  | OutOfFuel => OutOfFuel
  end.

Notation "x <- m ;; f" := (bind m (fun x => f))
  (at level 61, m at next level, right associativity).

(** How one round of a loop body ends: at its last statement or at a
    [continue] ([Next]), or at a [break] ([Break]). *)
Inductive ctl (S : Type) : Type :=
| Next (s : S)
| Break (s : S).

Arguments Next {S} s.
Arguments Break {S} s.

Fixpoint while {S : Type} (fuel : nat) (cond : S -> bool) (body : S -> result (ctl S))
    (s : S) : result S :=
  match fuel with
  | O => OutOfFuel
  | Datatypes.S fuel' =>
      if cond s then
        r <- body s ;;
        match r with
        | Next s' => while fuel' cond body s'
        | Break s' => Ok s'
        end
      else Ok s
  end.

(** [xs[n]] *)
Definition index {A : Type} (xs : list A) (n : nat) : result A :=
  match nth_error xs n with
  | Some x => Ok x
  | None => IndexError
  end.

(** ** The extractor: [extract_methods] *)

Module Extractor.

Definition modifier (extra : list regex) : regex :=
  alts (map kw ["public"; "private"; "protected"; "internal"]%string ++ extra).

(** [(?:public|private|protected|internal|sealed|abstract|static|partial)?\s*(?:class|struct|record)\s+(\w+)] *)
Definition class_pattern : regex :=
  seqs [opt (modifier (map kw ["sealed"; "abstract"; "static"; "partial"]%string));
        Star space;
        alts (map kw ["class"; "struct"; "record"]%string);
        plus space;
        Group 1 (plus word)].

(** The class [[\w<>\[\],\?]] of the return type. *)
Definition type_char (c : ascii) : bool :=
  is_word c || existsb (eqc c) (L "<>[],?").

(** The pattern searched on each line for a method definition: one or
    more modifiers or blanks, blanks, the return type (group 1), blanks,
    the name (group 2), blanks, a parenthesised parameter list without
    closing parenthesis inside, blanks, and an opening brace or the end
    of the line. *)
Definition method_signature_pattern : regex :=
  seqs [plus (modifier (map kw ["static"; "virtual"; "override"; "abstract"; "async"; "sealed"]%string
                          ++ [space]));
        Star space;
        Group 1 (plus (Chr type_char));
        plus space;
        Group 2 (plus word);
        Star space;
        kw "("; Star (not_chr ")"); kw ")";
        Star space;
        Alt (kw "{") (Eol false)].

Definition accessor_names : list str :=
  map L ["get"; "set"; "add"; "remove"; "value"]%string.

Definition declaration_keywords : list str :=
  map L ["class "; "interface "; "struct "; "enum "; "namespace "]%string.

(** One element of the returned list:
    [(class_name, method_name, method_body, start_line)]. *)
Record method_entry : Type := Entry {
  class_name : str;
  method_name : str;
  method_body : str;
  start_line : nat
}.

(** The variables of the outer loop. *)
Record scan : Type := Scan {
  i : nat;
  current_class : str;
  methods : list method_entry
}.

(** The variables of the loop that looks for the method body. *)
Record capture : Type := Capture {
  j : nat;
  brace_count : Z;
  found_opening_brace : bool;
  method_body_lines : list str
}.

(** [for char in current_line: ...] *)
Definition count_braces (current_line : str) (bf : Z * bool) : Z * bool :=
  fold_left
    (fun bf char =>
       if eqc char "{" then (fst bf + 1, true)%Z
       else if eqc char "}" then (fst bf - 1, snd bf)%Z
       else bf)
    current_line bf.

Definition capture_cond (lines : list str) (c : capture) : bool :=
  j c <? length lines.

Definition capture_body (lines : list str) (c : capture) : result (ctl capture) :=
  current_line <- index lines (j c) ;;
  let bf := count_braces current_line (brace_count c, found_opening_brace c) in
  let body_lines := method_body_lines c ++ [current_line] in
  if snd bf && (fst bf =? 0)%Z
  then Ok (Break (Capture (j c) (fst bf) (snd bf) body_lines))
  else Ok (Next (Capture (S (j c)) (fst bf) (snd bf) body_lines)).

Definition is_comment_or_blank (stripped : str) : bool :=
  Str.startswith (L "//") stripped || Str.startswith (L "/*") stripped
  || match stripped with [] => true | _ => false end.

(** The class name after the check for a class definition on [line]. *)
Definition update_class (line : str) (current : str) : str :=
  match search class_pattern line with
  | Some (_, class_match) =>
      if Str.contains (L "{") (rest class_match)
      then group 1 (caps class_match)
      else group 1 (caps class_match)
  | None => current
  end.

(** The name of the method that [line] is taken to define, if any:
    the signature pattern matches and the line holds none of the
    declaration keywords. *)
Definition method_on (line : str) : option str :=
  match search method_signature_pattern line with
  | Some (_, method_match) =>
      if negb (existsb (fun kw => Str.contains kw line) declaration_keywords)
      then Some (group 2 (caps method_match))
      else None
  | None => None
  end.

Definition scan_cond (lines : list str) (s : scan) : bool :=
  i s <? length lines.

Definition scan_body (fuel : nat) (lines : list str) (s : scan) : result (ctl scan) :=
  line <- index lines (i s) ;;
  let stripped := Str.strip line in
  if is_comment_or_blank stripped then
    Ok (Next (Scan (S (i s)) (current_class s) (methods s)))
  else
    let current_class := update_class line (current_class s) in
    match method_on line with
    | Some method_name =>
        if Str.mem method_name accessor_names then
          Ok (Next (Scan (S (i s)) current_class (methods s)))
        else
          let start_line := i s + 1 in
          c <- while fuel (capture_cond lines) (capture_body lines)
                 (Capture (i s) 0 false []) ;;
          match method_body_lines c with
          | _ :: _ =>
              let method_body := Str.join_lines (method_body_lines c) in
              Ok (Next (Scan (S (j c)) current_class
                          (methods s ++ [Entry current_class method_name method_body start_line])))
          | [] => Ok (Next (Scan (S (i s)) current_class (methods s)))
          end
    | None => Ok (Next (Scan (S (i s)) current_class (methods s)))
    end.

Definition extract_methods_fuel (fuel : nat) (content file_path : str)
    : result (list method_entry) :=
  let lines := Str.split_lines content in
  s <- while fuel (scan_cond lines) (scan_body fuel lines) (Scan 0 (L "Unknown") []) ;;
  Ok (methods s).

(** The extractor, with fuel for one round more than there are lines. *)
Definition extract_methods (content file_path : str) : result (list method_entry) :=
  extract_methods_fuel (S (length (Str.split_lines content))) content file_path.

End Extractor.

Import Extractor.

(** ** Facts about loops *)

Section WhileFacts.

Context {S : Type}.
Variable cond : S -> bool.
Variable body : S -> result (ctl S).

Lemma while_unfold (fuel : nat) (s : S) :
  while (Datatypes.S fuel) cond body s =
  if cond s then
    r <- body s ;;
    match r with
    | Next s' => while fuel cond body s'
    | Break s' => Ok s'
    end
  else Ok s.
Proof. reflexivity. Qed.

(** Total correctness: an invariant [I], a variant [m] that every round
    decreases, and a postcondition [P] that holds when the condition
    fails and after a [break]. *)
Lemma while_total (I P : S -> Prop) (m : S -> nat) :
  (forall s, I s -> cond s = false -> P s) ->
  (forall s, I s -> cond s = true ->
     exists r, body s = Ok r /\
       match r with
       | Next s' => I s' /\ m s' < m s
       | Break s' => P s'
       end) ->
  forall fuel s, I s -> m s < fuel ->
    exists s', while fuel cond body s = Ok s' /\ P s'.
Proof.
  intros Hexit Hstep fuel.
  induction fuel as [|fuel IH]; intros s HI Hm; [lia|].
  rewrite while_unfold.
  destruct (cond s) eqn:Hc.
  - destruct (Hstep s HI Hc) as [r [Hb Hr]].
    rewrite Hb; cbn [bind].
    destruct r as [s'|s'].
    + destruct Hr as [HI' Hlt]. apply IH; [exact HI'|lia].
    + exists s'; split; [reflexivity|exact Hr].
  - exists s; split; [reflexivity|apply Hexit; assumption].
Qed.

(** A loop that returns with some fuel returns the same with more. *)
Lemma while_more_fuel (fuel fuel' : nat) (s s' : S) :
  while fuel cond body s = Ok s' -> fuel <= fuel' ->
  while fuel' cond body s = Ok s'.
Proof.
  revert fuel' s.
  induction fuel as [|fuel IH]; intros fuel' s H Hle; [discriminate|].
  destruct fuel' as [|fuel']; [lia|].
  rewrite while_unfold in *.
  destruct (cond s); [|exact H].
  destruct (body s) as [r| |]; cbn [bind] in *; try discriminate.
  destruct r as [s1|s1]; [|exact H].
  apply IH; [exact H|lia].
Qed.

End WhileFacts.

(** ** The extractor's loops *)

Section ExtractorFacts.

Variable lines : list str.

Lemma index_ok (A : Type) (xs : list A) (n : nat) :
  n < length xs -> exists x, index xs n = Ok x /\ nth_error xs n = Some x.
Proof.
  intros H. unfold index.
  destruct (nth_error xs n) as [x|] eqn:E.
  - exists x; auto.
  - apply nth_error_None in E. lia.
Qed.

(** The brace depth and the flag after whole lines [ls], from the
    initial values of the inner loop. *)
Definition braces_upto (ls : list str) : Z * bool :=
  fold_left (fun bf l => count_braces l bf) ls (0%Z, false).

(** The test that ends the inner loop, at the end of line [k] when the
    loop started on line [start]. *)
Definition closes_at (start k : nat) : bool :=
  let bf := braces_upto (firstn (S k - start) (skipn start lines)) in
  snd bf && (fst bf =? 0)%Z.

(** The lines gathered so far are the lines from [start] up to [j],
    the depth and the flag are those after these lines, and the test
    has failed on each of them. *)
Definition capture_inv (start : nat) (c : capture) : Prop :=
  start <= j c <= length lines /\
  method_body_lines c = firstn (j c - start) (skipn start lines) /\
  (brace_count c, found_opening_brace c) = braces_upto (method_body_lines c) /\
  forall k, start <= k < j c -> closes_at start k = false.

(** What the loop leaves behind: either it ran off the end with all
    the lines from [start] on, or it stopped on the first line [j] that
    passes the test, with the lines up to and including that one. *)
Definition capture_post (start : nat) (c : capture) : Prop :=
  start <= j c /\
  (forall k, start <= k < j c -> closes_at start k = false) /\
  ((j c = length lines /\ method_body_lines c = skipn start lines) \/
   (j c < length lines /\ closes_at start (j c) = true /\
    method_body_lines c = firstn (S (j c) - start) (skipn start lines))).

Lemma firstn_skipn_snoc (start k : nat) (l : str) :
  start <= k -> nth_error lines k = Some l ->
  firstn (k - start) (skipn start lines) ++ [l] =
  firstn (S k - start) (skipn start lines).
Proof.
  intros Hle Hn.
  assert (Hk : nth_error (skipn start lines) (k - start) = Some l).
  { rewrite nth_error_skipn. replace (start + (k - start)) with k by lia. exact Hn. }
  replace (S k - start) with (S (k - start)) by lia.
  remember (skipn start lines) as xs. remember (k - start) as n.
  clear - Hk. revert xs Hk.
  induction n as [|n IH]; intros [|x xs] Hk; try discriminate; cbn in *.
  - congruence.
  - f_equal. apply IH. exact Hk.
Qed.

Lemma braces_upto_snoc (ls : list str) (l : str) :
  braces_upto (ls ++ [l]) = count_braces l (braces_upto ls).
Proof. unfold braces_upto. now rewrite fold_left_app. Qed.

Lemma capture_total (fuel start : nat) (c : capture) :
  capture_inv start c -> length lines - j c < fuel ->
  exists c', while fuel (capture_cond lines) (capture_body lines) c = Ok c' /\
             capture_post start c'.
Proof.
  apply (while_total (capture_cond lines) (capture_body lines)
           (capture_inv start) (capture_post start)
           (fun c => length lines - j c)).
  - intros s [[H1 H2] [H3 [H4 H5]]] Hc. unfold capture_cond in Hc.
    apply Nat.ltb_ge in Hc.
    split; [exact H1|]. split; [exact H5|]. left. split; [lia|].
    rewrite H3. apply firstn_all2. rewrite length_skipn. lia.
  - intros s [[H1 H2] [H3 [H4 H5]]] Hc. unfold capture_cond in Hc.
    apply Nat.ltb_lt in Hc.
    destruct (index_ok lines Hc) as [l [Hl Hn]].
    unfold capture_body. rewrite Hl. cbn [bind].
    assert (Hsnoc : method_body_lines s ++ [l] =
                    firstn (S (j s) - start) (skipn start lines)).
    { rewrite H3. apply firstn_skipn_snoc; assumption. }
    assert (Hbf : count_braces l (brace_count s, found_opening_brace s) =
                  braces_upto (firstn (S (j s) - start) (skipn start lines))).
    { rewrite <- Hsnoc, braces_upto_snoc, H4. reflexivity. }
    destruct (snd _ && _)%bool eqn:Htest; eexists; (split; [reflexivity|]);
      unfold capture_inv, capture_post;
      cbn [j method_body_lines brace_count found_opening_brace].
    + split; [exact H1|]. split; [exact H5|]. right. split; [exact Hc|].
      split; [|exact Hsnoc].
      unfold closes_at. rewrite <- Hbf. exact Htest.
    + split; [|lia]. split; [lia|]. split.
      { exact Hsnoc. }
      split.
      { rewrite Hsnoc, <- Hbf. now destruct (count_braces _ _). }
      intros k Hk. destruct (Nat.eq_dec k (j s)) as [->|Hne].
      * unfold closes_at. rewrite <- Hbf. exact Htest.
      * apply H5. lia.
Qed.

Lemma capture_inv_init (start : nat) :
  start <= length lines -> capture_inv start (Capture start 0 false []).
Proof.
  intros H. unfold capture_inv. cbn [j method_body_lines brace_count found_opening_brace].
  rewrite Nat.sub_diag. repeat split; try lia; try reflexivity.
Qed.

(** The three ways a round of the outer loop goes on [line]: the line
    is a comment or blank; or it defines no method, or one with an
    accessor name; or an entry is appended, whose name [method_on]
    found and is no accessor name, and whose body is what the inner
    loop gathered from the current line on. *)
Definition skipped (s s' : scan) (line : str) : Prop :=
  is_comment_or_blank (Str.strip line) = true /\
  s' = Scan (S (i s)) (current_class s) (methods s).

Definition passed (s s' : scan) (line : str) : Prop :=
  is_comment_or_blank (Str.strip line) = false /\
  (method_on line = None \/
   exists name, method_on line = Some name /\ Str.mem name accessor_names = true) /\
  s' = Scan (S (i s)) (update_class line (current_class s)) (methods s).

Definition appended (s s' : scan) (line : str) : Prop :=
  is_comment_or_blank (Str.strip line) = false /\
  exists name c,
    method_on line = Some name /\
    Str.mem name accessor_names = false /\
    capture_post (i s) c /\
    s' = Scan (S (j c)) (update_class line (current_class s))
           (methods s ++
            [Entry (update_class line (current_class s)) name
               (Str.join_lines (method_body_lines c)) (i s + 1)]).

Definition round (s s' : scan) (line : str) : Prop :=
  skipped s s' line \/ passed s s' line \/ appended s s' line.

(** One round of the outer loop, from a line within the text and with
    fuel for the inner loop: it ends normally and moves the cursor
    forward. *)
Lemma scan_body_spec (fuel : nat) (s : scan) :
  i s < length lines -> length lines < fuel ->
  exists s' line,
    scan_body fuel lines s = Ok (Next s') /\
    nth_error lines (i s) = Some line /\
    i s < i s' /\
    round s s' line.
Proof.
  intros Hi Hfuel.
  destruct (index_ok lines Hi) as [line [Hl Hn]].
  unfold scan_body, round. rewrite Hl. cbn [bind].
  destruct (is_comment_or_blank (Str.strip line)) eqn:Hskip.
  { eexists; exists line; repeat split; [exact Hn|cbn [i]; lia|].
    left. split; [exact Hskip|reflexivity]. }
  destruct (method_on line) as [name|] eqn:Hm.
  2:{ eexists; exists line; repeat split; [exact Hn|cbn [i]; lia|].
      right; left. repeat split; auto. }
  destruct (Str.mem name accessor_names) eqn:Hacc.
  { eexists; exists line; repeat split; [exact Hn|cbn [i]; lia|].
    right; left. repeat split; eauto. }
  destruct (@capture_total fuel (i s) (Capture (i s) 0 false []))
    as [c [Hc Hpost]].
  { apply capture_inv_init. lia. }
  { cbn [j]. lia. }
  rewrite Hc. cbn [bind].
  assert (Hne : method_body_lines c <> []).
  { destruct Hpost as [Hle [_ [[Hj Hb]|[Hj [_ Hb]]]]]; rewrite Hb.
    - intros E. apply (f_equal (@length str)) in E.
      rewrite length_skipn in E. cbn [length] in E. lia.
    - intros E. apply (f_equal (@length str)) in E.
      rewrite length_firstn, length_skipn in E. cbn [length] in E. lia. }
  destruct (method_body_lines c) as [|b bs] eqn:Hb; [congruence|].
  eexists; exists line; repeat split; [exact Hn| |right; right].
  - cbn [i]. destruct Hpost as [Hle _]. lia.
  - split; [exact Hskip|]. exists name, c. rewrite Hb. repeat split; auto; apply Hpost.
Qed.

Lemma round_methods (s s' : scan) (line : str) :
  round s s' line -> methods s' = methods s \/ appended s s' line.
Proof.
  intros [[_ ->]|[[_ [_ ->]]|H]]; auto.
Qed.

(** The outer loop returns, with any property of its state that every
    round preserves. *)
Lemma scan_total (fuel : nat) (I : scan -> Prop) (s : scan) :
  (forall s s' line, I s -> i s < length lines ->
     nth_error lines (i s) = Some line ->
     i s < i s' -> round s s' line -> I s') ->
  length lines < fuel -> I s ->
  exists s', while fuel (scan_cond lines) (scan_body fuel lines) s = Ok s' /\
             I s' /\ length lines <= i s'.
Proof.
  intros Hpres Hfuel HI.
  apply (while_total (scan_cond lines) (scan_body fuel lines)
           I (fun s' => I s' /\ length lines <= i s')
           (fun s => length lines - i s)).
  - intros s0 HI0 Hc. unfold scan_cond in Hc. apply Nat.ltb_ge in Hc. auto.
  - intros s0 HI0 Hc. unfold scan_cond in Hc. apply Nat.ltb_lt in Hc.
    destruct (scan_body_spec s0 Hc Hfuel) as [s' [line [Hb [Hn [Hlt Hm]]]]].
    exists (Next s'). split; [exact Hb|]. split; [|lia].
    eapply Hpres; eauto.
  - exact HI.
  - lia.
Qed.

End ExtractorFacts.

Lemma extract_methods_returns (P : list method_entry -> Prop) (content file_path : str) :
  P [] ->
  (forall lines s s' line, P (methods s) -> appended lines s s' line -> P (methods s')) ->
  exists ms, extract_methods content file_path = Ok ms /\ P ms.
Proof.
  intros Hnil Happ.
  unfold extract_methods, extract_methods_fuel.
  set (lines := Str.split_lines content).
  destruct (@scan_total lines (S (length lines)) (fun s => P (methods s))
              (Scan 0 (L "Unknown") [])) as [s' [Hw [HP _]]].
  - intros s s' line HI _ _ _ Hr.
    destruct (round_methods Hr) as [E|A].
    + rewrite E. exact HI.
    + eapply Happ; eauto.
  - lia.
  - exact Hnil.
  - rewrite Hw. cbn [bind]. exists (methods s'). auto.
Qed.

(** ** States that the scan reaches *)

(** The states of the outer loop at the start of a round, when the inner
    loop is given [fuel]. *)
Inductive reaches (lines : list str) (fuel : nat) : scan -> Prop :=
| reaches_init : reaches lines fuel (Scan 0 (L "Unknown") [])
| reaches_next (s s' : scan) :
    reaches lines fuel s ->
    scan_cond lines s = true ->
    scan_body fuel lines s = Ok (Next s') ->
    reaches lines fuel s'.

Lemma reaches_run (lines : list str) (fuel : nat) (s : scan) :
  reaches lines fuel s ->
  forall f r, while f (scan_cond lines) (scan_body fuel lines) s = Ok r ->
  exists f', while f' (scan_cond lines) (scan_body fuel lines)
               (Scan 0 (L "Unknown") []) = Ok r.
Proof.
  induction 1 as [|s s' Hs IH Hc Hb]; intros f r Hr.
  - exists f. exact Hr.
  - apply (IH (S f)). rewrite while_unfold, Hc, Hb. exact Hr.
Qed.

Lemma reaches_result (content file_path : str) (s r : scan) (f : nat) :
  let lines := Str.split_lines content in
  reaches lines (S (length lines)) s ->
  while f (scan_cond lines) (scan_body (S (length lines)) lines) s = Ok r ->
  extract_methods content file_path = Ok (methods r).
Proof.
  intros lines Hs Hr.
  destruct (reaches_run Hs _ Hr) as [f' Hf'].
  unfold extract_methods, extract_methods_fuel. fold lines.
  destruct (@scan_total lines (S (length lines)) (fun _ => True)
              (Scan 0 (L "Unknown") [])) as [s' [Hw _]]; auto.
  rewrite Hw. cbn [bind].
  apply while_more_fuel with (fuel' := Nat.max f' (S (length lines))) in Hf'; [|lia].
  apply while_more_fuel with (fuel' := Nat.max f' (S (length lines))) in Hw; [|lia].
  congruence.
Qed.

Lemma Str_eqb_eq (a b : str) : Str.eqb a b = true <-> a = b.
Proof.
  revert b. induction a as [|x a IH]; intros [|y b]; cbn; split;
    try discriminate; auto.
  - intros H. apply andb_prop in H. destruct H as [H1 H2].
    apply Ascii.eqb_eq in H1. apply IH in H2. congruence.
  - intros H. injection H as -> ->. apply andb_true_intro.
    split; [apply Ascii.eqb_refl|now apply IH].
Qed.

Lemma Str_mem_In (x : str) (xs : list str) : Str.mem x xs = true <-> In x xs.
Proof.
  induction xs as [|y xs IH]; cbn.
  - split; [discriminate|tauto].
  - rewrite orb_true_iff, Str_eqb_eq, IH. split; intros [H|H]; auto.
Qed.

Lemma while_more_fuel_bodies (S : Type) (cond : S -> bool)
    (body body' : S -> result (ctl S)) :
  (forall s r, body s = Ok r -> body' s = Ok r) ->
  forall fuel fuel' s s',
    while fuel cond body s = Ok s' -> fuel <= fuel' ->
    while fuel' cond body' s = Ok s'.
Proof.
  intros Hb fuel.
  induction fuel as [|fuel IH]; intros fuel' s s' H Hle; [discriminate|].
  destruct fuel' as [|fuel']; [lia|].
  rewrite while_unfold in *.
  destruct (cond s); [|exact H].
  destruct (body s) as [r| |] eqn:E; cbn [bind] in H; try discriminate.
  rewrite (Hb _ _ E). cbn [bind].
  destruct r as [s1|s1]; [|exact H].
  apply IH; [exact H|lia].
Qed.

Lemma scan_body_more_fuel (lines : list str) (fuel fuel' : nat) (s : scan)
    (r : ctl scan) :
  fuel <= fuel' ->
  scan_body fuel lines s = Ok r -> scan_body fuel' lines s = Ok r.
Proof.
  intros Hle. unfold scan_body.
  destruct (index lines (i s)) as [line| |]; cbn [bind]; try discriminate.
  destruct (is_comment_or_blank _); [auto|].
  destruct (method_on line) as [name|]; [|auto].
  destruct (Str.mem name accessor_names); [auto|].
  destruct (while fuel _ _ _) as [c| |] eqn:E; cbn [bind]; try discriminate.
  apply while_more_fuel with (fuel' := fuel') in E; [|exact Hle].
  rewrite E. cbn [bind]. auto.
Qed.

(** ** The extractor: theorems *)

(** C7: whatever the input text, [extract_methods] returns a list in which
    no entry has one of the five accessor tokens get, set, add, remove and
    value as its method name. *)
Theorem C7_accessor_names_never_emitted (content file_path : str) :
  exists ms,
    extract_methods content file_path = Ok ms /\
    forall e, In e ms ->
      ~ In (method_name e) (map L ["get"; "set"; "add"; "remove"; "value"]%string).
Proof.
  apply extract_methods_returns.
  - intros e [].
  - intros lines s s' line IH [_ [name [c [_ [Hacc [_ ->]]]]]] e He.
    cbn [methods] in He. apply in_app_or in He.
    destruct He as [He|[<-|[]]]; [now apply IH|].
    cbn [method_name]. intros Hin.
    apply (proj2 (Str_mem_In name accessor_names)) in Hin.
    congruence.
Qed.

(** C10: [extract_methods] terminates on every input.  Each round of the
    outer loop ends and leaves the cursor strictly greater than it found
    it; the inner loop started on a line of the text ends within as many
    rounds as there are lines from there on, on a line that is not before
    the one it started on; and so fuel for one round more than there are
    lines is enough for both loops, and more fuel changes nothing. *)
Theorem C10_extract_methods_terminates :
  (forall lines fuel s,
     i s < length lines -> length lines < fuel ->
     exists s', scan_body fuel lines s = Ok (Next s') /\ i s < i s') /\
  (forall lines fuel start,
     start <= length lines -> length lines - start < fuel ->
     exists c,
       while fuel (capture_cond lines) (capture_body lines) (Capture start 0 false []) = Ok c /\
       start <= j c <= length lines) /\
  (forall content file_path fuel,
     length (Str.split_lines content) < fuel ->
     exists ms,
       extract_methods content file_path = Ok ms /\
       extract_methods_fuel fuel content file_path = Ok ms).
Proof.
  split; [|split].
  - intros lines fuel s Hi Hfuel.
    destruct (@scan_body_spec lines fuel s Hi Hfuel) as [s' [line [Hb [_ [Hlt _]]]]].
    exists s'. auto.
  - intros lines fuel start Hstart Hfuel.
    destruct (@capture_total lines fuel start (Capture start 0 false []))
      as [c [Hc [Hle [_ Hpost]]]].
    + now apply capture_inv_init.
    + exact Hfuel.
    + exists c. split; [exact Hc|]. destruct Hpost as [[Hj _]|[Hj _]]; lia.
  - intros content file_path fuel Hfuel.
    destruct (@extract_methods_returns (fun _ => True) content file_path)
      as [ms [Hms _]]; auto.
    exists ms. split; [exact Hms|].
    unfold extract_methods, extract_methods_fuel in *.
    set (lines := Str.split_lines content) in *.
    destruct (while (S (length lines)) _ _ _) as [s'| |] eqn:E;
      cbn [bind] in Hms; try discriminate.
    apply while_more_fuel_bodies
      with (body' := scan_body fuel lines) (fuel' := fuel) in E.
    + rewrite E. exact Hms.
    + intros s r. apply scan_body_more_fuel. exact Hfuel.
    + exact Hfuel.
Qed.

Lemma C10_extract_methods_terminates_witness :
  (exists s', scan_body 3 [L "  void M()"; L "  {"] (Scan 0 [] []) = Ok (Next s') /\ 0 < i s') /\
  (exists c,
     while 3 (capture_cond [L "  void M()"; L "  {"]) (capture_body [L "  void M()"; L "  {"])
       (Capture 0 0 false []) = Ok c /\ 0 <= j c <= 2) /\
  (exists ms,
     extract_methods (L "  void M() { }") [] = Ok ms /\
     extract_methods_fuel 7 (L "  void M() { }") [] = Ok ms).
Proof.
  split; [|split].
  - apply (proj1 C10_extract_methods_terminates [L "  void M()"; L "  {"] 3 (Scan 0 [] []));
      cbn; lia.
  - apply (proj1 (proj2 C10_extract_methods_terminates) [L "  void M()"; L "  {"] 3 0);
      cbn; lia.
  - apply (proj2 (proj2 C10_extract_methods_terminates) (L "  void M() { }") [] 7).
    vm_compute. lia.
Defined.

(** C5: [extract_methods] raises nothing on any input text; and when the
    scan stands on a signature line from which the depth test of the
    inner loop fails on every line up to the end of the text, the entry
    for that line is the last one of the result and its body is the whole
    text from that line on: no later line yields an entry. *)
Theorem C5_unclosed_body_takes_the_rest (content file_path : str) :
  let lines := Str.split_lines content in
  (exists ms, extract_methods content file_path = Ok ms) /\
  (forall s line name,
     reaches lines (S (length lines)) s ->
     nth_error lines (i s) = Some line ->
     is_comment_or_blank (Str.strip line) = false ->
     method_on line = Some name ->
     Str.mem name accessor_names = false ->
     (forall k, i s <= k < length lines -> closes_at lines (i s) k = false) ->
     extract_methods content file_path =
       Ok (methods s ++
           [Entry (update_class line (current_class s)) name
              (Str.join_lines (skipn (i s) lines)) (i s + 1)])).
Proof.
  intros lines. split.
  { destruct (@extract_methods_returns (fun _ => True) content file_path)
      as [ms [Hms _]]; eauto. }
  intros s line name Hs Hn Hskip Hm Hacc Hopen.
  assert (Hi : i s < length lines).
  { apply nth_error_Some. congruence. }
  destruct (@scan_body_spec lines (S (length lines)) s Hi (Nat.lt_succ_diag_r _))
    as [s' [line' [Hb [Hn' [_ Hr]]]]].
  assert (line' = line) by congruence. subst line'.
  assert (Hs' : s' = Scan (S (length lines)) (update_class line (current_class s))
                       (methods s ++
                        [Entry (update_class line (current_class s)) name
                           (Str.join_lines (skipn (i s) lines)) (i s + 1)])).
  { destruct Hr as [[H _]|[[_ [[H|[n [H1 H2]]] _]]|[_ [n [c [H1 [_ [Hpost ->]]]]]]]];
      try congruence.
    destruct Hpost as [Hle [_ [[Hj Hbody]|[Hj [Hclose _]]]]].
    - rewrite Hj, Hbody. congruence.
    - rewrite Hopen in Hclose; [discriminate|lia]. }
  replace (methods s ++ _) with (methods s') by (rewrite Hs'; reflexivity).
  apply (@reaches_result content file_path s s' 2 Hs).
  fold lines. rewrite while_unfold.
  unfold scan_cond at 1. rewrite (proj2 (Nat.ltb_lt _ _) Hi), Hb. cbn [bind].
  rewrite while_unfold. unfold scan_cond. rewrite Hs'. cbn [i].
  rewrite (proj2 (Nat.ltb_ge _ _)); [reflexivity|lia].
Qed.

Definition unclosed_text : str :=
  Str.join_lines (map L ["class C {"; "  void M() {"; "    x();"; "  void N() { }"]%string).

Lemma C5_unclosed_body_takes_the_rest_witness :
  (exists ms, extract_methods unclosed_text [] = Ok ms) /\
  extract_methods unclosed_text [] =
    Ok ([] ++ [Entry (update_class (L "  void M() {") (L "C")) (L "M")
                 (Str.join_lines (skipn 1 (Str.split_lines unclosed_text))) (1 + 1)]).
Proof.
  split.
  - apply (proj1 (C5_unclosed_body_takes_the_rest unclosed_text [])).
  - apply (proj2 (C5_unclosed_body_takes_the_rest unclosed_text [])
             (Scan 1 (L "C") []) (L "  void M() {") (L "M")).
    + apply reaches_next with (s := Scan 0 (L "Unknown") []).
      * apply reaches_init.
      * vm_compute. reflexivity.
      * vm_compute. reflexivity.
    + vm_compute. reflexivity.
    + vm_compute. reflexivity.
    + vm_compute. reflexivity.
    + vm_compute. reflexivity.
    + intros k Hk.
      change (i (Scan 1 (L "C") [])) with 1 in *.
      change (length (Str.split_lines unclosed_text)) with 4 in Hk.
      destruct k as [|[|[|[|k]]]]; try lia; vm_compute; reflexivity.
Defined.

(** C2 (what the code does): a signature line that no opening brace
    follows does get an entry, whose body is the rest of the text; here
    for an expression-bodied method at the end of a class. *)
Theorem C2_signature_without_brace_is_emitted :
  extract_methods
    (Str.join_lines (map L ["class C {"; "    public int Foo()"; "        => 42;"; "}"]%string)) [] =
  Ok [Entry (L "C") (L "Foo")
        (Str.join_lines (map L ["    public int Foo()"; "        => 42;"; "}"]%string)) 2].
Proof. vm_compute. reflexivity. Qed.


(** ** The scorer: theorems *)

(** The number of matches of every pattern of [decision_patterns], in the
    order of that list. *)
Definition match_counts (text : str) : list nat :=
  map (fun pn => findall_count (fst pn) text) decision_patterns.

(** The number of matches of a category: of all the patterns that
    [decision_patterns] lists under the name [name]. *)
Definition category_count (name : string) (text : str) : nat :=
  fold_left
    (fun n pn => if String.eqb (snd pn) name then n + findall_count (fst pn) text else n)
    decision_patterns 0.

(** The twelve names under which [decision_patterns] lists its patterns. *)
Definition categories : list string :=
  ["if"; "else if"; "for"; "foreach"; "while"; "do"; "case"; "catch";
   "&&"; "||"; "?:"; "??"]%string.

Definition sum_counts (counts : list nat) : Z :=
  fold_right (fun n acc => (Z.of_nat n + acc)%Z) 0%Z counts.

Lemma tally_sum (text : str) (start : Z) :
  tally text start = (start + sum_counts (match_counts text))%Z.
Proof.
  unfold tally, match_counts, sum_counts, decision_patterns.
  cbn [fold_left map fold_right fst]. lia.
Qed.

Lemma tally_categories (text : str) (start : Z) :
  tally text start =
  (start + sum_counts (map (fun name => category_count name text) categories))%Z.
Proof.
  unfold tally, sum_counts, categories, category_count, decision_patterns.
  cbn [fold_left map fold_right fst snd String.eqb Ascii.eqb Bool.eqb]. lia.
Qed.

Lemma else_if_count_category (text : str) :
  findall_count else_if_pattern text = category_count "else if" text.
Proof.
  unfold category_count, decision_patterns.
  cbn [fold_left fst snd String.eqb Ascii.eqb Bool.eqb]. reflexivity.
Qed.

Lemma category_count_other (name : string) (text : str) :
  ~ In name categories -> category_count name text = 0.
Proof.
  intros Hn. unfold category_count, decision_patterns.
  cbn [fold_left fst snd].
  repeat match goal with
  | |- context [String.eqb ?a name] =>
      destruct (String.eqb_spec a name) as [E|_];
      [exfalso; apply Hn; rewrite <- E; cbn; tauto|]
  end.
  reflexivity.
Qed.

Lemma score_text_categories (text : str) :
  score_text text =
  Z.max 1
    (1 + sum_counts (map (fun name => category_count name text) categories)
     - Z.of_nat (category_count "else if" text)).
Proof.
  unfold score_text. now rewrite tally_categories, else_if_count_category.
Qed.

(** C3: a body whose normalized text has no match in any of the twelve
    categories scores exactly 1, and every body scores at least 1. *)
Theorem C3_base_score :
  (forall body,
     (forall name, In name categories -> category_count name (normalize body) = 0) ->
     calculate_mccabe_complexity body = 1%Z) /\
  (forall body, (1 <= calculate_mccabe_complexity body)%Z).
Proof.
  split.
  - intros body H. unfold calculate_mccabe_complexity.
    rewrite score_text_categories.
    unfold sum_counts, categories. cbn [map fold_right].
    rewrite !H by (cbn; tauto). reflexivity.
  - intros body. unfold calculate_mccabe_complexity, score_text. lia.
Qed.

Lemma C3_base_score_witness :
  calculate_mccabe_complexity (L "{ }") = 1%Z /\
  (1 <= calculate_mccabe_complexity (L "if (a) { }"))%Z.
Proof.
  split.
  - apply (proj1 C3_base_score (L "{ }")).
    intros name Hin. cbn in Hin.
    repeat (destruct Hin as [<-|Hin]; [vm_compute; reflexivity|]).
    destruct Hin.
  - apply (proj2 C3_base_score).
Defined.

(** The score as a function of the category counts alone. *)
Definition score_of_counts (count : string -> nat) : Z :=
  Z.max 1 (1 + sum_counts (map count categories) - Z.of_nat (count "else if"%string)).

Lemma score_of_counts_monotone (count1 count2 : string -> nat) (name : string) :
  In name categories ->
  (forall other, In other categories -> other <> name -> count1 other = count2 other) ->
  count1 name < count2 name ->
  (score_of_counts count1 <= score_of_counts count2)%Z.
Proof.
  intros Hin Hsame Hmore.
  assert (E : forall other, In other categories ->
                other = name \/ count1 other = count2 other).
  { intros other Ho. destruct (string_dec other name); auto. }
  clear Hsame.
  assert (E1 := E "if"%string (or_introl eq_refl)).
  assert (E2 := E "else if"%string (or_intror (or_introl eq_refl))).
  assert (E3 := E "for"%string (or_intror (or_intror (or_introl eq_refl)))).
  assert (E4 := E "foreach"%string (or_intror (or_intror (or_intror (or_introl eq_refl))))).
  assert (E5 := E "while"%string
                  (or_intror (or_intror (or_intror (or_intror (or_introl eq_refl)))))).
  assert (E6 := E "do"%string
                  (or_intror (or_intror (or_intror (or_intror (or_intror (or_introl eq_refl))))))).
  assert (E7 := E "case"%string
                  (or_intror (or_intror (or_intror (or_intror (or_intror
                    (or_intror (or_introl eq_refl)))))))).
  assert (E8 := E "catch"%string
                  (or_intror (or_intror (or_intror (or_intror (or_intror
                    (or_intror (or_intror (or_introl eq_refl))))))))).
  assert (E9 := E "&&"%string
                  (or_intror (or_intror (or_intror (or_intror (or_intror
                    (or_intror (or_intror (or_intror (or_introl eq_refl)))))))))).
  assert (E10 := E "||"%string
                   (or_intror (or_intror (or_intror (or_intror (or_intror
                     (or_intror (or_intror (or_intror (or_intror (or_introl eq_refl))))))))))).
  assert (E11 := E "?:"%string
                   (or_intror (or_intror (or_intror (or_intror (or_intror
                     (or_intror (or_intror (or_intror (or_intror (or_intror
                       (or_introl eq_refl)))))))))))).
  assert (E12 := E "??"%string
                   (or_intror (or_intror (or_intror (or_intror (or_intror
                     (or_intror (or_intror (or_intror (or_intror (or_intror
                       (or_intror (or_introl eq_refl))))))))))))).
  clear E.
  unfold score_of_counts, sum_counts, categories. cbn [map fold_right].
  unfold categories in Hin. cbn [In] in Hin.
  repeat (destruct Hin as [<-|Hin];
    [destruct E1 as [E1|E1]; [try discriminate E1|];
     (destruct E2 as [E2|E2]; [try discriminate E2|]);
     (destruct E3 as [E3|E3]; [try discriminate E3|]);
     (destruct E4 as [E4|E4]; [try discriminate E4|]);
     (destruct E5 as [E5|E5]; [try discriminate E5|]);
     (destruct E6 as [E6|E6]; [try discriminate E6|]);
     (destruct E7 as [E7|E7]; [try discriminate E7|]);
     (destruct E8 as [E8|E8]; [try discriminate E8|]);
     (destruct E9 as [E9|E9]; [try discriminate E9|]);
     (destruct E10 as [E10|E10]; [try discriminate E10|]);
     (destruct E11 as [E11|E11]; [try discriminate E11|]);
     (destruct E12 as [E12|E12]; [try discriminate E12|]);
     lia|]).
  destruct Hin.
Qed.

Lemma score_text_of_counts (text : str) :
  score_text text = score_of_counts (fun name => category_count name text).
Proof. unfold score_of_counts. apply score_text_categories. Qed.

(* The arguments of the next theorem are all explicit. *)
Unset Implicit Arguments.

(** C6: when the normalized texts of two bodies have the same number of
    matches in every category but one, and the second has more matches in
    that one, the second body's score is not less than the first's. *)
Theorem C6_monotone_in_each_category (body1 body2 : str) (name : string) :
  (forall other, In other categories -> other <> name ->
     category_count other (normalize body1) = category_count other (normalize body2)) ->
  category_count name (normalize body1) < category_count name (normalize body2) ->
  (calculate_mccabe_complexity body1 <= calculate_mccabe_complexity body2)%Z.
Proof.
  intros Hsame Hmore.
  destruct (in_dec string_dec name categories) as [Hin|Hout].
  2:{ rewrite !category_count_other in Hmore by exact Hout. lia. }
  unfold calculate_mccabe_complexity. rewrite !score_text_of_counts.
  now apply score_of_counts_monotone with (name := name).
Qed.

Set Implicit Arguments.

(** Two bodies that differ in the else-if category alone. *)
Lemma C6_monotone_in_each_category_witness :
  (calculate_mccabe_complexity (L "if (x) {} if (y) {}")
   <= calculate_mccabe_complexity (L "if (x) {} else if (y) {}"))%Z.
Proof.
  apply (@C6_monotone_in_each_category _ _ "else if"%string).
  - intros other Hin Hne. cbn in Hin.
    repeat (destruct Hin as [<-|Hin];
      [first [vm_compute; reflexivity | exfalso; apply Hne; reflexivity]|]).
    destruct Hin.
  - vm_compute. lia.
Defined.

(** ** Facts about matching *)

(** Whatever a match hands to its continuation lies no earlier in the text
    than where the match started. *)
Lemma star_loop_shrinks (body : mstate -> (mstate -> option mstate) -> option mstate) :
  (forall st k x, body st k = Some x ->
     exists st', k st' = Some x /\ length (rest st') <= length (rest st)) ->
  forall n st k x, star_loop body k n st = Some x ->
    exists st', k st' = Some x /\ length (rest st') <= length (rest st).
Proof.
  intros Hbody n.
  induction n as [|n IH]; intros st k x H; cbn [star_loop] in H.
  - exists st. auto.
  - destruct (body st _) as [y|] eqn:E; cbn [orelse] in H.
    + injection H as ->. apply Hbody in E.
      destruct E as [st1 [E1 L1]].
      destruct (progressed st st1); [|discriminate].
      apply IH in E1. destruct E1 as [st2 [E2 L2]].
      exists st2. split; [exact E2|lia].
    + exists st. auto.
Qed.

Lemma lazy_loop_shrinks (body : mstate -> (mstate -> option mstate) -> option mstate) :
  (forall st k x, body st k = Some x ->
     exists st', k st' = Some x /\ length (rest st') <= length (rest st)) ->
  forall n st k x, lazy_loop body k n st = Some x ->
    exists st', k st' = Some x /\ length (rest st') <= length (rest st).
Proof.
  intros Hbody n.
  induction n as [|n IH]; intros st k x H; cbn [lazy_loop] in H.
  - exists st. auto.
  - destruct (k st) as [y|] eqn:E; cbn [orelse] in H.
    + injection H as ->. exists st. auto.
    + apply Hbody in H. destruct H as [st1 [E1 L1]].
      destruct (progressed st st1); [|discriminate].
      apply IH in E1. destruct E1 as [st2 [E2 L2]].
      exists st2. split; [exact E2|lia].
Qed.

Lemma rmatch_shrinks (r : regex) :
  forall st k x, rmatch r st k = Some x ->
    exists st', k st' = Some x /\ length (rest st') <= length (rest st).
Proof.
  induction r as [|p|r1 IH1 r2 IH2|r1 IH1 r2 IH2|r IH|r IH| |m|n r IH];
    intros st k x H; cbn [rmatch] in H.
  - exists st. auto.
  - destruct (rest st) as [|c cs] eqn:E; [discriminate|].
    destruct (p c); [|discriminate].
    eexists. split; [exact H|]. cbn [rest length]. lia.
  - apply IH1 in H. destruct H as [st1 [H1 L1]].
    apply IH2 in H1. destruct H1 as [st2 [H2 L2]].
    exists st2. split; [exact H2|lia].
  - destruct (rmatch r1 st k) as [y|] eqn:E; cbn [orelse] in H.
    + injection H as ->. now apply IH1.
    + now apply IH2.
  - eapply star_loop_shrinks; eauto.
  - eapply lazy_loop_shrinks; eauto.
  - destruct (xorb _ _); [|discriminate]. exists st. auto.
  - exists st. split; [|lia].
    destruct (rest st) as [|c cs]; [exact H|].
    destruct (_ && _)%bool; [exact H|discriminate].
  - apply IH in H. destruct H as [st1 [H1 L1]].
    eexists. split; [exact H1|]. cbn [rest]. exact L1.
Qed.

(** A match found by a scan lies within the text, and is not the empty
    match at the very start when that one is refused. *)
Lemma search_from_shrinks (r : regex) (s : str) :
  forall ma p skipped e,
    search_from r ma p s = Some (skipped, e) ->
    length skipped + length (rest e) <= length s /\
    (ma = true -> skipped = [] -> length (rest e) < length s).
Proof.
  induction s as [|c s IH]; intros ma p skipped e H; cbn [search_from] in H.
  - destruct (rmatch r _ _) as [y|] eqn:E; [|discriminate].
    injection H as <- <-.
    apply rmatch_shrinks in E. destruct E as [st' [E L1]]. cbn [rest length] in *.
    destruct (ma && _)%bool eqn:T; [discriminate|]. injection E as ->.
    split; [cbn [length]; lia|].
    intros -> _. cbn [andb] in T. apply Nat.eqb_neq in T. lia.
  - destruct (rmatch r _ _) as [y|] eqn:E.
    + injection H as <- <-.
      apply rmatch_shrinks in E. destruct E as [st' [E L1]]. cbn [rest] in *.
      destruct (ma && _)%bool eqn:T; [discriminate|]. injection E as ->.
      split; [cbn [length] in *; lia|].
      intros -> _. cbn [andb] in T. apply Nat.eqb_neq in T. lia.
    + destruct (search_from r false (Some c) s) as [[sk e']|] eqn:E'; [|discriminate].
      injection H as <- <-.
      apply IH in E'. destruct E' as [L1 _].
      split; [cbn [length]; lia|]. discriminate.
Qed.

(** The measure that a round of a scan decreases. *)
Definition scan_measure (ma : bool) (s : str) : nat :=
  2 * length s + (if ma then 0 else 1).

Lemma scan_measure_decreases (r : regex) (ma : bool) (p : option ascii) (s skipped : str)
    (e : mstate) :
  search_from r ma p s = Some (skipped, e) ->
  scan_measure (empty_match skipped e s) (rest e) < scan_measure ma s.
Proof.
  intros H. apply search_from_shrinks in H. destruct H as [L1 L2].
  unfold scan_measure, empty_match.
  destruct (_ =? _) eqn:T.
  - apply Nat.eqb_eq in T. destruct ma; [|lia].
    destruct skipped as [|a sk]; [specialize (L2 eq_refl eq_refl); lia|].
    cbn [length] in *. lia.
  - apply Nat.eqb_neq in T. destruct ma; lia.
Qed.

(** With fuel above the measure, the result of a scan does not depend on
    the fuel. *)
Lemma sub_from_fuel (r : regex) (repl : str) (f1 : nat) :
  forall f2 ma p s,
    scan_measure ma s < f1 -> scan_measure ma s < f2 ->
    sub_from f1 r repl ma p s = sub_from f2 r repl ma p s.
Proof.
  induction f1 as [|f1 IH]; intros f2 ma p s H1 H2; [lia|].
  destruct f2 as [|f2]; [lia|]. cbn [sub_from].
  destruct (search_from r ma p s) as [[sk e]|] eqn:E; [|reflexivity].
  pose proof (scan_measure_decreases _ _ _ _ E) as D.
  do 2 f_equal. apply IH; lia.
Qed.

Lemma count_from_fuel (r : regex) (f1 : nat) :
  forall f2 ma p s,
    scan_measure ma s < f1 -> scan_measure ma s < f2 ->
    count_from f1 r ma p s = count_from f2 r ma p s.
Proof.
  induction f1 as [|f1 IH]; intros f2 ma p s H1 H2; [lia|].
  destruct f2 as [|f2]; [lia|]. cbn [count_from].
  destruct (search_from r ma p s) as [[sk e]|] eqn:E; [|reflexivity].
  pose proof (scan_measure_decreases _ _ _ _ E) as D.
  f_equal. apply IH; lia.
Qed.

(** ** Literals *)

(** The character before the position reached after reading [s]. *)
Definition lastc (p : option ascii) (s : str) : option ascii :=
  fold_left (fun _ c => Some c) s p.




Lemma eqc_refl (c : ascii) : eqc c c = true.
Proof. apply Ascii.eqb_refl. Qed.

Lemma eqc_neq (a b : ascii) : a <> b -> eqc a b = false.
Proof. intros H. now apply Ascii.eqb_neq. Qed.

Lemma ltb_length_cons (c : ascii) (s : str) : (length s <? length (c :: s)) = true.
Proof. apply Nat.ltb_lt. cbn [length]. lia. Qed.







Lemma literal_no_match (q a : ascii) (s : str) (p : option ascii)
    (cs : list (nat * str)) (k : mstate -> option mstate) :
  a <> q -> rmatch (literal_pattern q) (MState p (a :: s) cs) k = None.
Proof.
  intros Ha. unfold literal_pattern, chr. cbn [seqs]. cbn [rmatch rest].
  now rewrite (eqc_neq (not_eq_sym Ha)).
Qed.

Lemma literal_no_match_nil (q : ascii) (p : option ascii)
    (cs : list (nat * str)) (k : mstate -> option mstate) :
  rmatch (literal_pattern q) (MState p [] cs) k = None.
Proof. reflexivity. Qed.


Lemma search_literal_none (q : ascii) (s : str) :
  ~ In q s -> forall ma p, search_from (literal_pattern q) ma p s = None.
Proof.
  induction s as [|a s IH]; intros Hq ma p; cbn [search_from].
  - now rewrite literal_no_match_nil.
  - rewrite literal_no_match by (intros ->; apply Hq; now left).
    now rewrite IH by (intros H; apply Hq; now right).
Qed.




Lemma scan_measure_app (a b : str) :
  scan_measure false (a ++ b) = 2 * length a + scan_measure false b.
Proof. unfold scan_measure. rewrite length_app. lia. Qed.


Ltac lengths :=
  repeat (first [rewrite length_app | progress cbn [length]]).




Lemma strip_strings_without_quote (s : str) :
  ~ In dquote s -> strip_strings s = s.
Proof.
  intros H. unfold strip_strings, sub, scan_fuel.
  replace (2 * length s + 2) with (S (2 * length s + 1)) by lia.
  cbn [sub_from]. now rewrite search_literal_none.
Qed.





(** C1 (as stated): the score of the scenario would be 2. *)
Lemma C1_else_if_scenario_is_not_2 :
  calculate_mccabe_complexity (L "if (a) { } else if (b) { }") <> 2%Z.
Proof. vm_compute. discriminate. Qed.

(** C1 (amended): in the body [if (a) { } else if (b) { }] the if rule
    matches twice, the second time inside [else if (], the else-if rule
    matches once and no other rule matches; the score is 3: 1 for the base
    path, plus 2, plus 1, minus 1 for the else-if correction. *)
Theorem C1_else_if_scenario :
  match_counts (normalize (L "if (a) { } else if (b) { }")) =
    [2; 1; 0; 0; 0; 0; 0; 0; 0; 0; 0; 0; 0] /\
  findall_count else_if_pattern (normalize (L "if (a) { } else if (b) { }")) = 1 /\
  calculate_mccabe_complexity (L "if (a) { } else if (b) { }") = (1 + 2 + 1 - 1)%Z.
Proof. vm_compute. auto. Qed.

(** ** The two rules for the question mark *)

Definition qmark : ascii := "?"%char.

(** [\?[^?]] and [\?\?], as [decision_patterns] lists them. *)
Definition ternary_pattern : regex := seqs [kw "?"; not_chr "?"].
Definition coalesce_pattern : regex := kw "??".

Section QuestionMark.

Variable r : regex.
Hypothesis r_head : forall a s p cs k,
  a <> qmark -> rmatch r (MState p (a :: s) cs) k = None.
Hypothesis r_nil : forall p cs k, rmatch r (MState p [] cs) k = None.

Lemma search_qmark_skip (pre t : str) :
  ~ In qmark pre ->
  forall p,
    search_from r false p (pre ++ t) =
    match search_from r false (lastc p pre) t with
    | Some (skipped, e) => Some (pre ++ skipped, e)
    | None => None
    end.
Proof.
  induction pre as [|a pre IH]; intros Hq p.
  - cbn [app lastc fold_left]. now destruct (search_from _ _ _ _) as [[sk e]|].
  - cbn [app search_from].
    rewrite r_head by (intros ->; apply Hq; now left).
    rewrite IH by (intros H; apply Hq; now right).
    cbn [lastc fold_left]. now destruct (search_from _ _ _ _) as [[sk e]|].
Qed.

Lemma search_qmark_none (s : str) :
  ~ In qmark s -> forall ma p, search_from r ma p s = None.
Proof.
  induction s as [|a s IH]; intros Hq ma p; cbn [search_from].
  - now rewrite r_nil.
  - rewrite r_head by (intros ->; apply Hq; now left).
    now rewrite IH by (intros H; apply Hq; now right).
Qed.

End QuestionMark.

Lemma ternary_head (a : ascii) (s : str) (p : option ascii) (cs : list (nat * str))
    (k : mstate -> option mstate) :
  a <> qmark -> rmatch ternary_pattern (MState p (a :: s) cs) k = None.
Proof.
  intros Ha. unfold ternary_pattern, kw. cbn [seqs L list_ascii_of_string lit].
  unfold chr. cbn [rmatch rest]. fold qmark. now rewrite (eqc_neq (not_eq_sym Ha)).
Qed.

Lemma coalesce_head (a : ascii) (s : str) (p : option ascii) (cs : list (nat * str))
    (k : mstate -> option mstate) :
  a <> qmark -> rmatch coalesce_pattern (MState p (a :: s) cs) k = None.
Proof.
  intros Ha. unfold coalesce_pattern, kw. cbn [L list_ascii_of_string lit].
  unfold chr. cbn [rmatch rest]. fold qmark. now rewrite (eqc_neq (not_eq_sym Ha)).
Qed.

(** In a text whose only question marks are the two of one [??] that a
    character follows, each of the two rules matches once. *)
Lemma coalesce_count (pre post : str) (c : ascii) :
  ~ In qmark pre -> ~ In qmark (c :: post) ->
  findall_count coalesce_pattern (pre ++ qmark :: qmark :: c :: post) = 1.
Proof.
  intros Hpre Hpost. unfold findall_count, scan_fuel.
  replace (2 * _ + 2) with (S (S (2 * length (pre ++ qmark :: qmark :: c :: post)))) by lia.
  cbn [count_from].
  rewrite (@search_qmark_skip coalesce_pattern coalesce_head pre _ Hpre).
  cbn [search_from]. unfold coalesce_pattern at 1, kw.
  cbn [L list_ascii_of_string lit]. unfold chr. cbn [rmatch rest caps andb].
  change (eqc "?" qmark) with true. cbn iota. cbn [prev rest].
  now rewrite (@search_qmark_none coalesce_pattern coalesce_head (fun _ _ _ => eq_refl) _ Hpost).
Qed.

Lemma ternary_count (pre post : str) (c : ascii) :
  ~ In qmark pre -> ~ In qmark (c :: post) ->
  findall_count ternary_pattern (pre ++ qmark :: qmark :: c :: post) = 1.
Proof.
  intros Hpre Hpost. unfold findall_count, scan_fuel.
  replace (2 * _ + 2) with (S (S (2 * length (pre ++ qmark :: qmark :: c :: post)))) by lia.
  cbn [count_from].
  rewrite (@search_qmark_skip ternary_pattern ternary_head pre _ Hpre).
  assert (Hc : c <> qmark) by (intros ->; apply Hpost; now left).
  assert (Hp : ~ In qmark post) by (intros H; apply Hpost; now right).
  cbn [search_from]. unfold ternary_pattern at 1 2, kw.
  cbn [seqs L list_ascii_of_string lit]. unfold chr, not_chr.
  cbn [rmatch rest caps andb].
  change (eqc "?" qmark) with true. cbn iota. cbn [negb]. fold qmark.
  rewrite (eqc_neq (not_eq_sym Hc)). cbn [negb prev rest].
  now rewrite (@search_qmark_none ternary_pattern ternary_head (fun _ _ _ => eq_refl) _ Hp).
Qed.

Lemma question_mark_categories (text : str) :
  category_count "?:" text = findall_count ternary_pattern text /\
  category_count "??" text = findall_count coalesce_pattern text.
Proof.
  unfold category_count, decision_patterns.
  cbn [fold_left fst snd String.eqb Ascii.eqb Bool.eqb]. auto.
Qed.

(** C9: the body [a ?? b] scores 3, its one [??] being matched once by
    the rule for [??] and once more, on its second question mark, by the
    ternary rule; and so does every body whose normalized text has one
    [??] with a character after it, no other question mark, and no match
    in the ten other categories. *)
Theorem C9_null_coalescing_counts_twice :
  (match_counts (normalize (L "a ?? b")) = [0; 0; 0; 0; 0; 0; 0; 0; 0; 0; 0; 1; 1] /\
   calculate_mccabe_complexity (L "a ?? b") = 3%Z) /\
  (forall body pre post c,
     normalize body = pre ++ qmark :: qmark :: c :: post ->
     ~ In qmark pre -> ~ In qmark (c :: post) ->
     (forall name, In name categories -> name <> "?:"%string -> name <> "??"%string ->
        category_count name (normalize body) = 0) ->
     category_count "?:" (normalize body) = 1 /\
     category_count "??" (normalize body) = 1 /\
     calculate_mccabe_complexity body = 3%Z).
Proof.
  split; [vm_compute; auto|].
  intros body pre post c Hn Hpre Hpost Hzero.
  destruct (question_mark_categories (normalize body)) as [Ht Hc].
  rewrite Hn in Ht, Hc.
  rewrite ternary_count in Ht by assumption.
  rewrite coalesce_count in Hc by assumption.
  rewrite <- Hn in Ht, Hc.
  split; [exact Ht|]. split; [exact Hc|].
  unfold calculate_mccabe_complexity. rewrite score_text_categories.
  unfold sum_counts, categories. cbn [map fold_right].
  rewrite Ht, Hc.
  rewrite !Hzero by (first [discriminate | cbn; tauto]).
  reflexivity.
Qed.

Lemma C9_null_coalescing_counts_twice_witness :
  category_count "?:" (normalize (L "return x ?? y;")) = 1 /\
  category_count "??" (normalize (L "return x ?? y;")) = 1 /\
  calculate_mccabe_complexity (L "return x ?? y;") = 3%Z.
Proof.
  apply (proj2 C9_null_coalescing_counts_twice (L "return x ?? y;")
           (L "return x ") (L "y;") " "%char).
  - vm_compute. reflexivity.
  - cbn. intros H. repeat (destruct H as [H|H]; [discriminate|]). exact H.
  - cbn. intros H. repeat (destruct H as [H|H]; [discriminate|]). exact H.
  - intros name Hin H1 H2. cbn in Hin.
    repeat (destruct Hin as [<-|Hin];
      [first [vm_compute; reflexivity | exfalso; apply H1; reflexivity
             | exfalso; apply H2; reflexivity]|]).
    destruct Hin.
Defined.


(** * Further properties of the extractor *)

(** The index one past the last line of the body that the inner loop
    gathers when started on line [start]: one past the first line that
    passes the depth test, or the number of lines if none does. *)
Definition body_end (lines : list str) (start : nat) : nat :=
  match find (closes_at lines start) (seq start (length lines - start)) with
  | Some k => S k
  | None => length lines
  end.

(** The lines of the body gathered from line [start]. *)
Definition body_lines (lines : list str) (start : nat) : list str :=
  firstn (body_end lines start - start) (skipn start lines).

(** An entry that stands for a signature line of [lines]: its start line
    is a line of the text that is neither blank nor a comment and on which
    [method_on] finds the entry's name, and its body is made of the lines
    from there to the end of the body. *)
Definition entry_ok (lines : list str) (e : method_entry) : Prop :=
  1 <= start_line e <= length lines /\
  (exists line,
     nth_error lines (start_line e - 1) = Some line /\
     is_comment_or_blank (Str.strip line) = false /\
     method_on line = Some (method_name e)) /\
  method_body e = Str.join_lines (body_lines lines (start_line e - 1)).

(** The entry [b] starts after the last line of the body of [a]. *)
Definition before (lines : list str) (a b : method_entry) : Prop :=
  body_end lines (start_line a - 1) < start_line b.

(** Entries laid out in the text in order and without overlap, all
    before the line [cursor]. *)
Definition laid_out (lines : list str) (ms : list method_entry) (cursor : nat) : Prop :=
  Forall (entry_ok lines) ms /\
  Forall (fun e => body_end lines (start_line e - 1) <= cursor) ms /\
  StronglySorted (before lines) ms.

Lemma find_seq_first (f : nat -> bool) (n start k : nat) :
  (forall m, start <= m < k -> f m = false) -> f k = true ->
  start <= k < start + n ->
  find f (seq start n) = Some k.
Proof.
  revert start. induction n as [|n IH]; intros start Hlow Hk Hr; [lia|].
  cbn [seq find].
  destruct (Nat.eq_dec start k) as [->|Hne].
  - now rewrite Hk.
  - rewrite Hlow by lia. apply IH; auto.
    + intros m Hm. apply Hlow. lia.
    + lia.
Qed.

Lemma find_seq_none (f : nat -> bool) (n start : nat) :
  (forall m, start <= m < start + n -> f m = false) ->
  find f (seq start n) = None.
Proof.
  revert start. induction n as [|n IH]; intros start Hlow; [reflexivity|].
  cbn [seq find]. rewrite Hlow by lia. apply IH.
  intros m Hm. apply Hlow. lia.
Qed.

(** What the inner loop leaves behind, in terms of [body_end]. *)
Lemma capture_post_body_end (lines : list str) (start : nat) (c : capture) :
  capture_post lines start c -> start < length lines ->
  method_body_lines c = body_lines lines start /\
  start < body_end lines start <= length lines /\
  body_end lines start = Nat.min (S (j c)) (length lines) /\
  j c <= length lines.
Proof.
  intros [Hle [Hlow [[Hj Hb]|[Hj [Hclose Hb]]]]] Hstart; unfold body_lines, body_end.
  - rewrite find_seq_none.
    + rewrite Hb. split; [|lia].
      symmetry. apply firstn_all2. rewrite length_skipn. lia.
    + intros m Hm. apply Hlow. lia.
  - rewrite (@find_seq_first _ _ _ (j c)); auto; [|lia].
    rewrite Hb. split; [reflexivity|lia].
Qed.

Lemma StronglySorted_snoc (A : Type) (R : A -> A -> Prop) (xs : list A) (x : A) :
  StronglySorted R xs -> Forall (fun y => R y x) xs -> StronglySorted R (xs ++ [x]).
Proof.
  induction 1 as [|y ys Hs IH Hy]; intros Hx; cbn [app].
  - repeat constructor.
  - inversion Hx as [|? ? Hyx Hrest]; subst.
    constructor; [now apply IH|].
    apply Forall_app. split; [exact Hy|]. now constructor.
Qed.

(** Every round of the outer loop keeps the entries laid out before the
    cursor. *)
Lemma round_laid_out (lines : list str) (s s' : scan) (line : str) :
  i s < length lines -> nth_error lines (i s) = Some line ->
  round lines s s' line ->
  laid_out lines (methods s) (i s) -> laid_out lines (methods s') (i s').
Proof.
  intros Hi Hn Hr [Hok [Hend Hsort]].
  assert (Hweak : forall cur, i s <= cur ->
            Forall (fun e => body_end lines (start_line e - 1) <= cur) (methods s)).
  { intros cur Hcur. eapply Forall_impl; [|exact Hend]. cbn. intros e He. lia. }
  destruct Hr as [[_ ->]|[[_ [_ ->]]|[Hskip [name [c [Hm [Hacc [Hpost ->]]]]]]]];
    cbn [i methods].
  - repeat split; auto.
  - repeat split; auto.
  - destruct (capture_post_body_end Hpost Hi) as [Hb [Hrange [Hmin Hjle]]].
    assert (Hcur : body_end lines (i s) <= S (j c)) by lia.
    assert (Hstart : i s + 1 - 1 = i s) by lia.
    repeat split.
    + apply Forall_app. split; [exact Hok|]. constructor; [|constructor].
      unfold entry_ok. cbn [start_line method_name method_body]. rewrite Hstart.
      split; [lia|]. split; [exists line; auto|]. now rewrite Hb.
    + apply Forall_app. split; [apply Hweak; lia|]. constructor; [|constructor].
      cbn [start_line]. rewrite Hstart. exact Hcur.
    + apply StronglySorted_snoc; [exact Hsort|].
      eapply Forall_impl; [|exact Hend]. cbn. intros e He.
      unfold before. cbn [start_line]. lia.
Qed.

Lemma extract_methods_laid_out (content file_path : str) :
  exists ms,
    extract_methods content file_path = Ok ms /\
    laid_out (Str.split_lines content) ms (S (length (Str.split_lines content))).
Proof.
  unfold extract_methods, extract_methods_fuel.
  set (lines := Str.split_lines content).
  destruct (@scan_total lines (S (length lines))
              (fun s => laid_out lines (methods s) (i s) /\ i s <= S (length lines))
              (Scan 0 (L "Unknown") [])) as [s' [Hw [[[Hok [Hend Hsort]] Hle] _]]].
  - intros s s' line [HI Hb] Hi Hn Hlt Hr. split.
    + eapply round_laid_out; eauto.
    + destruct Hr as [[_ ->]|[[_ [_ ->]]|[_ [name [c [_ [_ [Hpost ->]]]]]]]]; cbn [i]; try lia.
      destruct (capture_post_body_end Hpost Hi) as [_ [Hrange [Hmin Hjle]]]. lia.
  - lia.
  - split; [|cbn [i]; lia]. repeat split; cbn [methods]; constructor.
  - rewrite Hw. cbn [bind]. exists (methods s'). split; [reflexivity|].
    repeat split; auto.
    eapply Forall_impl; [|exact Hend]. cbn. intros e He. lia.
Qed.

Lemma find_seq_least (f : nat -> bool) (n start k : nat) :
  find f (seq start n) = Some k ->
  start <= k < start + n /\ f k = true /\
  forall m, start <= m < k -> f m = false.
Proof.
  revert start. induction n as [|n IH]; intros start H; [discriminate|].
  cbn [seq find] in H. destruct (f start) eqn:E.
  - injection H as <-. repeat split; auto; lia.
  - apply IH in H. destruct H as [Hr [Hk Hlow]].
    repeat split; auto; try lia.
    intros m Hm. destruct (Nat.eq_dec m start) as [->|Hne]; [exact E|].
    apply Hlow. lia.
Qed.

(** What [body_end] is: past the start, within the text, after lines that
    all fail the depth test, and either just after a line that passes it
    or at the end of the text. *)
Lemma body_end_spec (lines : list str) (start : nat) :
  start < length lines ->
  start < body_end lines start <= length lines /\
  (forall k, start <= k -> S k < body_end lines start -> closes_at lines start k = false) /\
  (closes_at lines start (body_end lines start - 1) = true \/
   body_end lines start = length lines).
Proof.
  intros Hs. unfold body_end.
  destruct (find _ _) as [k|] eqn:E.
  - apply find_seq_least in E. destruct E as [Hr [Hk Hlow]].
    split; [lia|]. split.
    + intros m Hm1 Hm2. apply Hlow. lia.
    + left. replace (S k - 1) with k by lia. exact Hk.
  - split; [lia|]. split; [|now right].
    intros k Hk1 Hk2. apply (find_none _ _ E). apply in_seq. lia.
Qed.

Lemma increasing_count (ms : list method_entry) :
  forall lo hi,
    StronglySorted (fun a b => start_line a < start_line b) ms ->
    Forall (fun e => lo <= start_line e <= hi) ms ->
    length ms <= hi + 1 - lo.
Proof.
  induction ms as [|e ms IH]; intros lo hi Hs Hr; cbn [length]; [lia|].
  inversion Hs as [|? ? Hs' He]; subst.
  inversion Hr as [|? ? Hre Hr']; subst.
  assert (H : length ms <= hi + 1 - S (start_line e)).
  { apply IH; [exact Hs'|].
    rewrite Forall_forall in *. intros x Hx.
    specialize (He x Hx). specialize (Hr' x Hx). cbn in He. lia. }
  lia.
Qed.

Lemma extract_methods_order (content file_path : str) :
  exists ms,
    extract_methods content file_path = Ok ms /\
    Forall (fun e => 1 <= start_line e <= length (Str.split_lines content)) ms /\
    StronglySorted (before (Str.split_lines content)) ms /\
    StronglySorted (fun a b => start_line a < start_line b) ms /\
    length ms <= length (Str.split_lines content).
Proof.
  destruct (extract_methods_laid_out content file_path) as [ms [Hms [Hok [_ Hsort]]]].
  set (lines := Str.split_lines content) in *.
  assert (Hr : Forall (fun e => 1 <= start_line e <= length lines) ms).
  { eapply Forall_impl; [|exact Hok]. intros e He. apply He. }
  assert (Hinc : StronglySorted (fun a b => start_line a < start_line b) ms).
  { clear Hms. induction Hsort as [|e ms Hs IH He]; [constructor|].
    inversion Hok as [|? ? Hoke Hok']; subst.
    inversion Hr as [|? ? Hre Hr']; subst.
    constructor; [now apply IH|].
    eapply Forall_impl; [|exact He]. intros b Hb. unfold before in Hb.
    assert (Hstart : start_line e - 1 < length lines) by lia.
    pose proof (body_end_spec lines Hstart) as [Hrange _]. lia. }
  exists ms. repeat split; auto.
  pose proof (increasing_count Hinc Hr). lia.
Qed.

(** X1: the entries come in the order of the text.  Every start line is
    a line of the text, each entry starts after the last line of the body
    of the one before it, so start lines strictly increase and bodies do
    not overlap, and there are at most as many entries as lines. *)
Theorem extract_methods_in_text_order (content file_path : str) :
  exists ms,
    extract_methods content file_path = Ok ms /\
    Forall (fun e => 1 <= start_line e <= length (Str.split_lines content)) ms /\
    StronglySorted (before (Str.split_lines content)) ms /\
    StronglySorted (fun a b => start_line a < start_line b) ms /\
    length ms <= length (Str.split_lines content).
Proof.
  exact (extract_methods_order content file_path).
Qed.

(** X2: every entry stands for a signature line: its start line is
    neither blank nor a comment, [method_on] finds the entry's name on
    it, and the entry's body is that line and the lines after it, joined
    by newlines, up to the first line at whose end the depth test passes,
    or up to the end of the text if no line passes it. *)
Theorem extract_methods_entries_are_signature_blocks (content file_path : str) :
  exists ms,
    extract_methods content file_path = Ok ms /\
    Forall
      (fun e =>
         entry_ok (Str.split_lines content) e /\
         (forall k, start_line e - 1 <= k ->
            S k < body_end (Str.split_lines content) (start_line e - 1) ->
            closes_at (Str.split_lines content) (start_line e - 1) k = false) /\
         (closes_at (Str.split_lines content) (start_line e - 1)
            (body_end (Str.split_lines content) (start_line e - 1) - 1) = true \/
          body_end (Str.split_lines content) (start_line e - 1) =
            length (Str.split_lines content)))
      ms.
Proof.
  destruct (extract_methods_laid_out content file_path) as [ms [Hms [Hok _]]].
  exists ms. split; [exact Hms|].
  eapply Forall_impl; [|exact Hok]. intros e He. split; [exact He|].
  destruct He as [Hr _].
  apply body_end_spec. lia.
Qed.

(** A line that starts an entry when the scan stands on it. *)
Definition signature_line (line : str) : bool :=
  negb (is_comment_or_blank (Str.strip line)) &&
  match method_on line with
  | Some name => negb (Str.mem name accessor_names)
  | None => false
  end.

(** The line [k] lies in the body of the entry [e]. *)
Definition covers (lines : list str) (e : method_entry) (k : nat) : Prop :=
  start_line e - 1 <= k < body_end lines (start_line e - 1).

Lemma round_signature (lines : list str) (s s' : scan) (line : str) :
  round lines s s' line ->
  (signature_line line = false /\ methods s' = methods s /\ i s' = S (i s)) \/
  (signature_line line = true /\ appended lines s s' line).
Proof.
  unfold signature_line.
  intros [[Hc ->]|[[Hc [[Hm|[name [Hm Hacc]]] ->]]|H]].
  - left. rewrite Hc. auto.
  - left. rewrite Hc, Hm. auto.
  - left. rewrite Hc, Hm, Hacc. auto.
  - right. split; [|exact H].
    destruct H as [Hc [name [c [Hm [Hacc _]]]]]. now rewrite Hc, Hm, Hacc.
Qed.

(** X3: no signature line is lost: every line of the text that is a
    signature line either starts an entry or lies in the body of an entry
    that started before it. *)
Theorem extract_methods_covers_signature_lines (content file_path : str) :
  exists ms,
    extract_methods content file_path = Ok ms /\
    forall k line,
      nth_error (Str.split_lines content) k = Some line ->
      signature_line line = true ->
      exists e, In e ms /\ covers (Str.split_lines content) e k.
Proof.
  unfold extract_methods, extract_methods_fuel.
  set (lines := Str.split_lines content).
  destruct (@scan_total lines (S (length lines))
              (fun s => forall k line, k < i s -> nth_error lines k = Some line ->
                          signature_line line = true ->
                          exists e, In e (methods s) /\ covers lines e k)
              (Scan 0 (L "Unknown") [])) as [s' [Hw [HI Hend]]].
  - intros s s' line HI Hi Hn Hlt Hr k l Hk Hl Hsig.
    destruct (round_signature Hr) as [[Hno [Hm Hi']]|[_ [_ [name [c [_ [_ [Hpost ->]]]]]]]].
    + rewrite Hm. destruct (Nat.eq_dec k (i s)) as [->|Hne]; [congruence|].
      apply (HI k l); auto. lia.
    + cbn [i methods] in *.
      destruct (Nat.lt_ge_cases k (i s)) as [Hlow|Hhigh].
      * destruct (HI k l Hlow Hl Hsig) as [e [He Hc]].
        exists e. split; [apply in_or_app; now left|exact Hc].
      * eexists. split; [apply in_or_app; right; left; reflexivity|].
        unfold covers. cbn [start_line].
        replace (i s + 1 - 1) with (i s) by lia.
        destruct (capture_post_body_end Hpost Hi) as [_ [Hrange [Hmin Hjle]]].
        assert (k < length lines) by (apply nth_error_Some; congruence).
        lia.
  - lia.
  - cbn [i]. intros k line Hk. lia.
  - rewrite Hw. cbn [bind]. exists (methods s'). split; [reflexivity|].
    intros k line Hn Hsig. apply (HI k line); auto.
    assert (k < length lines) by (apply nth_error_Some; congruence). lia.
Qed.

(** Where a class name comes from: it is the sentinel, or the name that
    the class pattern captures on a line before [cursor]. *)
Definition class_source (lines : list str) (cursor : nat) (cls : str) : Prop :=
  cls = L "Unknown" \/
  exists k line skipped m,
    k < cursor /\ nth_error lines k = Some line /\
    search class_pattern line = Some (skipped, m) /\
    cls = group 1 (caps m).

Lemma update_class_cases (line cur : str) :
  (search class_pattern line = None /\ update_class line cur = cur) \/
  (exists skipped m,
     search class_pattern line = Some (skipped, m) /\
     update_class line cur = group 1 (caps m)).
Proof.
  unfold update_class.
  destruct (search class_pattern line) as [[sk m]|]; [right|left; auto].
  exists sk, m. split; [reflexivity|]. now destruct (Str.contains _ _).
Qed.

Lemma class_source_later (lines : list str) (c1 c2 : nat) (cls : str) :
  c1 <= c2 -> class_source lines c1 cls -> class_source lines c2 cls.
Proof.
  intros Hle [H|[k [line [sk [m [Hk H]]]]]]; [now left|right].
  exists k, line, sk, m. split; [lia|exact H].
Qed.

Lemma class_source_update (lines : list str) (k : nat) (line cur : str) :
  nth_error lines k = Some line ->
  class_source lines k cur -> class_source lines (S k) (update_class line cur).
Proof.
  intros Hn Hcur.
  destruct (update_class_cases line cur) as [[_ ->]|[sk [m [Hs ->]]]].
  - apply class_source_later with (c1 := k); auto.
  - right. exists k, line, sk, m. auto.
Qed.

(** X4: the class name of every entry is the sentinel [Unknown] or the
    name captured by the class pattern on a line not after the entry's
    start line; so in a text none of whose lines matches the class
    pattern every entry has the class name [Unknown]. *)
Theorem extract_methods_class_names (content file_path : str) :
  exists ms,
    extract_methods content file_path = Ok ms /\
    Forall (fun e => class_source (Str.split_lines content) (start_line e) (class_name e)) ms /\
    ((forall line, In line (Str.split_lines content) -> search class_pattern line = None) ->
     Forall (fun e => class_name e = L "Unknown") ms).
Proof.
  unfold extract_methods, extract_methods_fuel.
  set (lines := Str.split_lines content).
  destruct (@scan_total lines (S (length lines))
              (fun s => class_source lines (i s) (current_class s) /\
                        Forall (fun e => class_source lines (start_line e) (class_name e))
                          (methods s))
              (Scan 0 (L "Unknown") [])) as [s' [Hw [[_ HI] _]]].
  - intros s s' line [Hc Hm] Hi Hn Hlt Hr.
    destruct Hr as [[_ ->]|[[_ [_ ->]]|[_ [name [c [_ [_ [Hpost ->]]]]]]]];
      cbn [i current_class methods].
    + split; [|exact Hm]. apply class_source_later with (c1 := i s); auto.
    + split; [|exact Hm]. now apply class_source_update.
    + assert (Hnew : class_source lines (S (i s)) (update_class line (current_class s)))
        by now apply class_source_update.
      split.
      * destruct Hpost as [Hle _].
        apply class_source_later with (c1 := S (i s)); [lia|exact Hnew].
      * apply Forall_app. split; [exact Hm|]. constructor; [|constructor].
        cbn [start_line class_name]. now replace (i s + 1) with (S (i s)) by lia.
  - lia.
  - split; [now left|constructor].
  - rewrite Hw. cbn [bind]. exists (methods s'). split; [reflexivity|].
    split; [exact HI|].
    intros Hnone. eapply Forall_impl; [|exact HI]. cbn.
    intros e [H|[k [line [sk [m [_ [Hn [Hs _]]]]]]]]; [exact H|].
    rewrite Hnone in Hs; [discriminate|]. eapply nth_error_In; eauto.
Qed.

(** The class name that the scan holds after the lines [ls], none of
    which starts an entry, when it held [cur] before them. *)
Definition class_after (ls : list str) (cur : str) : str :=
  fold_left
    (fun cur line => if is_comment_or_blank (Str.strip line) then cur else update_class line cur)
    ls cur.

Lemma class_after_snoc (ls : list str) (line cur : str) :
  class_after (ls ++ [line]) cur =
  if is_comment_or_blank (Str.strip line) then class_after ls cur
  else update_class line (class_after ls cur).
Proof. unfold class_after. now rewrite fold_left_app. Qed.

Lemma firstn_succ_snoc (A : Type) (xs : list A) (k : nat) (x : A) :
  nth_error xs k = Some x -> firstn (S k) xs = firstn k xs ++ [x].
Proof.
  revert xs. induction k as [|k IH]; intros [|y xs] H; try discriminate; cbn in *.
  - congruence.
  - f_equal. now apply IH.
Qed.

(** The scan passes over lines that are no signature lines one by one,
    keeping track of the class name. *)
Lemma reaches_over_plain_lines (pre more : list str) (fuel : nat) :
  length (pre ++ more) < fuel ->
  Forall (fun l => signature_line l = false) pre ->
  forall k, k <= length pre ->
    reaches (pre ++ more) fuel (Scan k (class_after (firstn k pre) (L "Unknown")) []).
Proof.
  intros Hfuel Hpre k.
  induction k as [|k IH]; intros Hk.
  - cbn. apply reaches_init.
  - assert (Hl : k < length (pre ++ more)) by (rewrite length_app; lia).
    destruct (nth_error pre k) as [line|] eqn:Hline;
      [|apply nth_error_None in Hline; lia].
    assert (Hline' : nth_error (pre ++ more) k = Some line)
      by (rewrite nth_error_app1; [exact Hline|lia]).
    assert (Hsig : signature_line line = false).
    { rewrite Forall_forall in Hpre. apply Hpre. eapply nth_error_In; eauto. }
    specialize (IH ltac:(lia)).
    destruct (@scan_body_spec (pre ++ more) fuel
                (Scan k (class_after (firstn k pre) (L "Unknown")) []) Hl Hfuel)
      as [s' [l [Hb [Hn [_ Hr]]]]].
    cbn [i] in Hn. assert (l = line) by congruence. subst l.
    eapply reaches_next; [exact IH| |rewrite Hb; f_equal; f_equal].
    + unfold scan_cond. cbn [i]. now apply Nat.ltb_lt.
    + rewrite (firstn_succ_snoc _ _ Hline), class_after_snoc.
      unfold signature_line in Hsig.
      destruct Hr as [[Hc ->]|[[Hc [_ ->]]|[Hc [name [c [Hm [Hacc _]]]]]]];
        cbn [i current_class methods].
      * now rewrite Hc.
      * now rewrite Hc.
      * rewrite Hc, Hm, Hacc in Hsig. discriminate.
Qed.

(** The entries gathered when the scan reaches a state stay, in their
    order, at the front of the result. *)
Lemma reaches_prefix (content file_path : str) (s : scan) :
  reaches (Str.split_lines content) (S (length (Str.split_lines content))) s ->
  exists more, extract_methods content file_path = Ok (methods s ++ more).
Proof.
  intros Hs.
  set (lines := Str.split_lines content) in *.
  destruct (@scan_total lines (S (length lines))
              (fun x => exists more, methods x = methods s ++ more) s)
    as [s' [Hw [[more Hmore] _]]].
  - intros x x' line [more Hx] _ _ _ Hr.
    destruct (round_methods Hr) as [E|[_ [name [c [_ [_ [_ ->]]]]]]].
    + exists more. congruence.
    + cbn [methods]. rewrite Hx, <- app_assoc. eauto.
  - lia.
  - exists []. now rewrite app_nil_r.
  - exists more. rewrite <- Hmore.
    apply (@reaches_result content file_path s s' (S (length lines))); assumption.
Qed.

(** X5: the first signature line of a text gives the first entry of the
    result: its start line is that line, its class name is the one the
    class pattern captured last on the lines up to and including it that
    are neither blank nor comments ([Unknown] if there is none), and its
    body runs from that line to the end of the body. *)
Theorem first_signature_line_gives_first_entry (content file_path : str)
    (pre : list str) (line : str) (post : list str) (name : str) :
  Str.split_lines content = pre ++ line :: post ->
  Forall (fun l => signature_line l = false) pre ->
  signature_line line = true ->
  method_on line = Some name ->
  exists more,
    extract_methods content file_path =
    Ok (Entry (class_after (pre ++ [line]) (L "Unknown")) name
          (Str.join_lines (body_lines (Str.split_lines content) (length pre)))
          (length pre + 1) :: more).
Proof.
  intros Hlines Hpre Hsig Hname.
  set (lines := Str.split_lines content) in *.
  assert (Hfuel : length lines < S (length lines)) by lia.
  pose proof (@reaches_over_plain_lines pre (line :: post) (S (length lines))) as Hreach.
  rewrite <- Hlines in Hreach.
  specialize (Hreach Hfuel Hpre (length pre) (le_n _)).
  rewrite firstn_all in Hreach.
  assert (Hn : nth_error lines (length pre) = Some line).
  { rewrite Hlines, nth_error_app2, Nat.sub_diag by lia. reflexivity. }
  assert (Hl : length pre < length lines).
  { apply nth_error_Some. congruence. }
  destruct (@scan_body_spec lines (S (length lines))
              (Scan (length pre) (class_after pre (L "Unknown")) []) Hl Hfuel)
    as [s' [l [Hb [Hn' [_ Hr]]]]].
  cbn [i] in Hn'. assert (l = line) by congruence. subst l.
  destruct (round_signature Hr) as [[Hno _]|[_ [Hc [name' [c [Hm [_ [Hpost Hs']]]]]]]];
    [congruence|].
  assert (name' = name) by congruence. subst name'.
  cbn [i current_class methods app] in Hs'.
  destruct (capture_post_body_end Hpost Hl) as [Hbody _].
  assert (Hnext : reaches lines (S (length lines)) s').
  { eapply reaches_next; [exact Hreach| |exact Hb].
    unfold scan_cond. cbn [i]. now apply Nat.ltb_lt. }
  destruct (@reaches_prefix content file_path s' Hnext) as [more Hmore].
  exists more. rewrite Hmore, Hs'. cbn [methods app].
  rewrite class_after_snoc, Hc, Hbody. reflexivity.
Qed.

Definition two_classes_text : str :=
  Str.join_lines
    (map L ["class A {"; "    int x;"; "}"; "class B {"; "    void M() {}"; "}"]%string).

Lemma first_signature_line_gives_first_entry_witness :
  exists more,
    extract_methods two_classes_text [] =
    Ok (Entry (class_after (map L ["class A {"; "    int x;"; "}"; "class B {"]%string
                              ++ [L "    void M() {}"]) (L "Unknown"))
          (L "M")
          (Str.join_lines (body_lines (Str.split_lines two_classes_text) 4))
          (4 + 1) :: more).
Proof.
  apply (@first_signature_line_gives_first_entry two_classes_text []
           (map L ["class A {"; "    int x;"; "}"; "class B {"]%string)
           (L "    void M() {}") [L "}"] (L "M")).
  - vm_compute. reflexivity.
  - repeat constructor.
  - vm_compute. reflexivity.
  - vm_compute. reflexivity.
Defined.

(** * Further properties of the scorer *)

(** ** Patterns that do not look behind *)

(** A pattern without [\b]. *)
Fixpoint no_lookbehind (r : regex) : bool :=
  match r with
  | Eps | Chr _ | Eol _ => true
  | WordB => false
  | Seq r1 r2 | Alt r1 r2 => no_lookbehind r1 && no_lookbehind r2
  | Star r' | LazyStar r' | Group _ r' => no_lookbehind r'
  end.

(** Two positions that differ at most in the character before them. *)
Definition same_ahead (a b : mstate) : Prop :=
  rest a = rest b /\ caps a = caps b.

Definition same_result (a b : option mstate) : Prop :=
  match a, b with
  | Some x, Some y => same_ahead x y
  | None, None => True
  | _, _ => False
  end.

Definition same_cont (k1 k2 : mstate -> option mstate) : Prop :=
  forall a b, same_ahead a b -> same_result (k1 a) (k2 b).

Definition same_body (b1 b2 : mstate -> (mstate -> option mstate) -> option mstate) : Prop :=
  forall st1 st2 k1 k2,
    same_ahead st1 st2 -> same_cont k1 k2 -> same_result (b1 st1 k1) (b2 st2 k2).

Lemma same_result_orelse (a1 a2 b1 b2 : option mstate) :
  same_result a1 a2 -> same_result b1 b2 -> same_result (orelse a1 b1) (orelse a2 b2).
Proof. destruct a1, a2; cbn; tauto. Qed.

Lemma progressed_same (st1 st2 a b : mstate) :
  same_ahead st1 st2 -> same_ahead a b -> progressed st1 a = progressed st2 b.
Proof. intros [H1 _] [H2 _]. unfold progressed. now rewrite H1, H2. Qed.

Lemma star_loop_same (b1 b2 : mstate -> (mstate -> option mstate) -> option mstate) :
  same_body b1 b2 ->
  forall n st1 st2 k1 k2,
    same_ahead st1 st2 -> same_cont k1 k2 ->
    same_result (star_loop b1 k1 n st1) (star_loop b2 k2 n st2).
Proof.
  intros Hb n. induction n as [|n IH]; intros st1 st2 k1 k2 Hst Hk; cbn [star_loop].
  - now apply Hk.
  - apply same_result_orelse; [|now apply Hk].
    apply Hb; [exact Hst|].
    intros a b Hab. rewrite (progressed_same Hst Hab).
    destruct (progressed st2 b); [now apply IH|exact I].
Qed.

Lemma lazy_loop_same (b1 b2 : mstate -> (mstate -> option mstate) -> option mstate) :
  same_body b1 b2 ->
  forall n st1 st2 k1 k2,
    same_ahead st1 st2 -> same_cont k1 k2 ->
    same_result (lazy_loop b1 k1 n st1) (lazy_loop b2 k2 n st2).
Proof.
  intros Hb n. induction n as [|n IH]; intros st1 st2 k1 k2 Hst Hk; cbn [lazy_loop].
  - now apply Hk.
  - apply same_result_orelse; [now apply Hk|].
    apply Hb; [exact Hst|].
    intros a b Hab. rewrite (progressed_same Hst Hab).
    destruct (progressed st2 b); [now apply IH|exact I].
Qed.

(** A pattern without [\b] matches the same way whatever the character
    before the position. *)
Lemma rmatch_same (r : regex) :
  no_lookbehind r = true -> same_body (rmatch r) (rmatch r).
Proof.
  induction r as [|p|r1 IH1 r2 IH2|r1 IH1 r2 IH2|r IH|r IH| |m|n r IH];
    intros Hr st1 st2 k1 k2 Hst Hk; cbn [no_lookbehind] in Hr; cbn [rmatch].
  - now apply Hk.
  - destruct Hst as [Hrest Hcaps]. rewrite Hrest, Hcaps.
    destruct (rest st2) as [|c cs]; [exact I|].
    destruct (p c); [|exact I]. apply Hk. split; reflexivity.
  - apply andb_prop in Hr. destruct Hr as [H1 H2].
    apply IH1; auto. intros a b Hab. apply IH2; auto.
  - apply andb_prop in Hr. destruct Hr as [H1 H2].
    apply same_result_orelse; [apply IH1|apply IH2]; auto.
  - destruct Hst as [Hrest Hcaps]. rewrite Hrest.
    apply star_loop_same; auto. now split.
  - destruct Hst as [Hrest Hcaps]. rewrite Hrest.
    apply lazy_loop_same; auto. now split.
  - discriminate.
  - specialize (Hk st1 st2 Hst).
    destruct Hst as [Hrest Hcaps]. rewrite Hrest.
    destruct (rest st2) as [|c cs]; [exact Hk|].
    destruct (_ && _)%bool; [exact Hk|exact I].
  - apply IH; auto. intros a b [Hab1 Hab2]. apply Hk.
    destruct Hst as [Hrest Hcaps]. split; cbn [rest caps]; [exact Hab1|].
    now rewrite Hab1, Hab2, Hrest.
Qed.

Lemma refuse_empty_same (ma : bool) (n : nat) :
  same_cont (fun e => if ma && (length (rest e) =? n) then None else Some e)
            (fun e => if ma && (length (rest e) =? n) then None else Some e).
Proof.
  intros a b [Hab1 Hab2]. rewrite Hab1.
  destruct (ma && _)%bool; cbn; auto. now split.
Qed.

Lemma search_from_same (r : regex) (s : str) :
  no_lookbehind r = true ->
  forall ma p1 p2,
    match search_from r ma p1 s, search_from r ma p2 s with
    | Some (sk1, e1), Some (sk2, e2) => sk1 = sk2 /\ same_ahead e1 e2
    | None, None => True
    | _, _ => False
    end.
Proof.
  intros Hr ma p1 p2.
  pose proof (@rmatch_same r Hr (MState p1 s []) (MState p2 s []) _ _
                (conj eq_refl eq_refl) (refuse_empty_same ma (length s))) as H.
  destruct s as [|c s]; cbn [search_from].
  - destruct (rmatch r (MState p1 [] []) _), (rmatch r (MState p2 [] []) _);
      cbn in H; try contradiction; auto.
  - destruct (rmatch r (MState p1 (c :: s) []) _), (rmatch r (MState p2 (c :: s) []) _);
      cbn in H; try contradiction; auto.
    destruct (search_from r false (Some c) s) as [[sk e]|]; auto.
    split; [reflexivity|now split].
Qed.

(** The substitution and the count for a pattern without [\b] do not
    depend on the character before the text. *)
Lemma sub_from_same (r : regex) (repl : str) :
  no_lookbehind r = true ->
  forall f ma p1 p2 s,
    sub_from f r repl ma p1 s = sub_from f r repl ma p2 s.
Proof.
  intros Hr f. induction f as [|f IH]; intros ma p1 p2 s; cbn [sub_from]; [reflexivity|].
  pose proof (@search_from_same r s Hr ma p1 p2) as H.
  destruct (search_from r ma p1 s) as [[sk1 e1]|], (search_from r ma p2 s) as [[sk2 e2]|];
    try contradiction; auto.
  destruct H as [-> [Hrest Hcaps]].
  unfold empty_match. rewrite Hrest. do 2 f_equal. apply IH.
Qed.

(** ** Comments *)

Definition slash : ascii := "/"%char.
Definition star : ascii := "*"%char.

Section FirstCharacter.

Variable r : regex.
Variable q : ascii.
Hypothesis r_head : forall a s p cs k,
  a <> q -> rmatch r (MState p (a :: s) cs) k = None.
Hypothesis r_nil : forall p cs k, rmatch r (MState p [] cs) k = None.

Lemma search_first_skip (pre t : str) :
  ~ In q pre ->
  forall p,
    search_from r false p (pre ++ t) =
    match search_from r false (lastc p pre) t with
    | Some (skipped, e) => Some (pre ++ skipped, e)
    | None => None
    end.
Proof.
  induction pre as [|a pre IH]; intros Hq p.
  - cbn [app lastc fold_left]. now destruct (search_from _ _ _ _) as [[sk e]|].
  - cbn [app search_from].
    rewrite r_head by (intros ->; apply Hq; now left).
    rewrite IH by (intros H; apply Hq; now right).
    cbn [lastc fold_left]. now destruct (search_from _ _ _ _) as [[sk e]|].
Qed.

Lemma search_first_none (s : str) :
  ~ In q s -> forall ma p, search_from r ma p s = None.
Proof.
  induction s as [|a s IH]; intros Hq ma p; cbn [search_from].
  - now rewrite r_nil.
  - rewrite r_head by (intros ->; apply Hq; now left).
    now rewrite IH by (intros H; apply Hq; now right).
Qed.

Lemma empty_match_app (pre sk t : str) (e : mstate) :
  empty_match (pre ++ sk) e (pre ++ t) = empty_match sk e t.
Proof.
  unfold empty_match. rewrite !length_app.
  destruct (Nat.eqb_spec (length sk + length (rest e)) (length t)) as [E|E].
  - apply Nat.eqb_eq. lia.
  - apply Nat.eqb_neq. lia.
Qed.

(** A substitution passes over text without the first character of the
    pattern. *)
Lemma sub_first_skip (repl pre t : str) (p : option ascii) (f : nat) :
  ~ In q pre ->
  sub_from (S f) r repl false p (pre ++ t) =
  pre ++ sub_from (S f) r repl false (lastc p pre) t.
Proof.
  intros Hq. cbn [sub_from]. rewrite search_first_skip by exact Hq.
  destruct (search_from r false (lastc p pre) t) as [[sk e]|]; [|reflexivity].
  now rewrite empty_match_app, <- app_assoc.
Qed.

Lemma sub_first_none (repl s : str) (ma : bool) (p : option ascii) (f : nat) :
  ~ In q s -> sub_from f r repl ma p s = s.
Proof.
  intros Hq. destruct f as [|f]; cbn [sub_from]; [reflexivity|].
  now rewrite search_first_none.
Qed.

End FirstCharacter.

(** Greedy repetition of a class reads a run of the class up to a
    character outside it, or up to the end of the text. *)
Lemma star_class (pr : ascii -> bool) (run : str) :
  forall n p tail cs k x,
    Forall (fun c => pr c = true) run ->
    match tail with [] => True | c :: _ => pr c = false end ->
    length run <= n ->
    k (MState (lastc p run) tail cs) = Some x ->
    star_loop (rmatch (Chr pr)) k n (MState p (run ++ tail) cs) = Some x.
Proof.
  set (body := rmatch (Chr pr)).
  induction run as [|a run IH]; intros n p tail cs k x Hrun Htail Hn Hk.
  - cbn [app lastc fold_left] in *.
    destruct n as [|n]; cbn [star_loop]; [exact Hk|].
    unfold body at 1. cbn [rmatch rest].
    destruct tail as [|c t]; [exact Hk|]. rewrite Htail. exact Hk.
  - destruct n as [|n]; [cbn [length] in Hn; lia|].
    inversion Hrun as [|a' run' Ha Hrun']; subst.
    cbn [star_loop app]. unfold body at 1. cbn [rmatch rest caps]. rewrite Ha.
    unfold progressed at 1. cbn [rest]. rewrite ltb_length_cons.
    rewrite (IH n (Some a) tail cs k x); auto.
    cbn [length] in Hn. lia.
Qed.

(** Where a line ends: at the end of the text or before a newline. *)
Definition line_end (tail : str) : Prop :=
  tail = [] \/ exists t, tail = newline :: t.

(** At two slashes the line-comment pattern matches up to the end of the
    line. *)
Lemma line_comment_match (comment tail : str) (p : option ascii)
    (cs : list (nat * str)) (k : mstate -> option mstate) (x : mstate) :
  ~ In newline comment -> line_end tail ->
  k (MState (lastc (Some slash) comment) tail cs) = Some x ->
  rmatch line_comment_pattern (MState p (slash :: slash :: comment ++ tail) cs) k = Some x.
Proof.
  intros Hc Htail Hk.
  unfold line_comment_pattern, kw. cbn [seqs L list_ascii_of_string lit].
  unfold chr, dot. cbn [rmatch rest caps].
  change (eqc "/" slash) with true. cbn iota.
  apply star_class.
  - rewrite Forall_forall. intros c Hin.
    rewrite eqc_neq; [reflexivity|]. intros ->. now apply Hc.
  - destruct Htail as [->|[t ->]]; [exact I|]. now rewrite eqc_refl.
  - rewrite length_app. lia.
  - destruct Htail as [->|[t ->]]; cbn [rmatch rest]; [exact Hk|].
    rewrite eqc_refl. exact Hk.
Qed.

Lemma line_comment_head (a : ascii) (s : str) (p : option ascii)
    (cs : list (nat * str)) (k : mstate -> option mstate) :
  a <> slash -> rmatch line_comment_pattern (MState p (a :: s) cs) k = None.
Proof.
  intros Ha. unfold line_comment_pattern, kw. cbn [seqs L list_ascii_of_string lit].
  unfold chr. cbn [rmatch rest]. fold slash. now rewrite (eqc_neq (not_eq_sym Ha)).
Qed.

Lemma line_comment_nil (p : option ascii) (cs : list (nat * str))
    (k : mstate -> option mstate) :
  rmatch line_comment_pattern (MState p [] cs) k = None.
Proof. reflexivity. Qed.

Lemma sub_line_comment_step (repl comment tail : str) (p : option ascii) (f : nat) :
  ~ In newline comment -> line_end tail ->
  sub_from (S f) line_comment_pattern repl false p (slash :: slash :: comment ++ tail) =
  repl ++ sub_from f line_comment_pattern repl false (lastc (Some slash) comment) tail.
Proof.
  intros Hc Htail. cbn [sub_from search_from].
  rewrite (@line_comment_match comment tail p [] _
             (MState (lastc (Some slash) comment) tail []) Hc Htail) by reflexivity.
  cbn [app prev rest].
  replace (empty_match _ _ _) with false; [reflexivity|].
  symmetry. unfold empty_match. apply Nat.eqb_neq. cbn [rest length].
  rewrite length_app. lia.
Qed.

(** The substitution for line comments removes a comment that follows
    text without a slash, up to the end of its line. *)
Lemma strip_line_comments_content (pre comment tail : str) :
  ~ In slash pre -> ~ In newline comment -> line_end tail ->
  strip_line_comments (pre ++ slash :: slash :: comment ++ tail) =
  strip_line_comments (pre ++ tail).
Proof.
  intros Hpre Hc Htail. unfold strip_line_comments, sub, scan_fuel.
  replace (2 * length (pre ++ slash :: slash :: comment ++ tail) + 2)
    with (S (S (2 * length (pre ++ slash :: slash :: comment ++ tail)))) by lia.
  replace (2 * length (pre ++ tail) + 2) with (S (S (2 * length (pre ++ tail)))) by lia.
  rewrite !(@sub_first_skip line_comment_pattern slash line_comment_head) by exact Hpre.
  f_equal.
  rewrite sub_line_comment_step by assumption. cbn [app].
  rewrite (@sub_from_same line_comment_pattern [] eq_refl _ false _ (lastc None pre) tail).
  apply sub_from_fuel; unfold scan_measure; lengths; lia.
Qed.

Lemma strip_chars_without_quote (s : str) :
  ~ In squote s -> strip_chars s = s.
Proof.
  intros H. unfold strip_chars, sub, scan_fuel.
  replace (2 * length s + 2) with (S (2 * length s + 1)) by lia.
  cbn [sub_from]. now rewrite search_literal_none.
Qed.

Lemma not_in_app3 (q : ascii) (a b c : str) :
  ~ In q (a ++ b ++ c) -> ~ In q a /\ ~ In q b /\ ~ In q c.
Proof.
  intros H. repeat split; intros Hin; apply H; apply in_or_app; auto.
  - right. apply in_or_app. auto.
  - right. apply in_or_app. auto.
Qed.

(** X6: a line comment is not counted: when the text before two slashes
    holds no slash, and the body no quote of either kind, the score is
    that of the body without the comment, whatever the comment holds up
    to the end of its line. *)
Theorem line_comment_is_not_counted (pre comment tail : str) :
  ~ In dquote (pre ++ comment ++ tail) ->
  ~ In squote (pre ++ comment ++ tail) ->
  ~ In slash pre -> ~ In newline comment -> line_end tail ->
  calculate_mccabe_complexity (pre ++ slash :: slash :: comment ++ tail) =
  calculate_mccabe_complexity (pre ++ tail).
Proof.
  intros Hd Hs Hpre Hc Htail.
  destruct (not_in_app3 _ _ _ _ Hd) as [Hd1 [Hd2 Hd3]].
  destruct (not_in_app3 _ _ _ _ Hs) as [Hs1 [Hs2 Hs3]].
  unfold calculate_mccabe_complexity, normalize.
  assert (Hq : forall q, q <> slash -> ~ In q pre -> ~ In q comment -> ~ In q tail ->
                 ~ In q (pre ++ slash :: slash :: comment ++ tail) /\ ~ In q (pre ++ tail)).
  { intros q Hq H1 H2 H3. split; intros Hin; apply in_app_or in Hin.
    - destruct Hin as [Hin|[Hin|[Hin|Hin]]]; auto.
      apply in_app_or in Hin. tauto.
    - tauto. }
  destruct (Hq dquote ltac:(discriminate) Hd1 Hd2 Hd3) as [Hd' Hd''].
  destruct (Hq squote ltac:(discriminate) Hs1 Hs2 Hs3) as [Hs' Hs''].
  rewrite !strip_strings_without_quote by assumption.
  rewrite !strip_chars_without_quote by assumption.
  now rewrite strip_line_comments_content.
Qed.

Lemma line_comment_is_not_counted_witness :
  calculate_mccabe_complexity
    (L "x = 1; " ++ slash :: slash :: L " if (a && b) ? c : d" ++ newline :: L "y = 2;") =
  calculate_mccabe_complexity (L "x = 1; " ++ newline :: L "y = 2;").
Proof.
  apply line_comment_is_not_counted.
  - cbn. intros H. repeat (destruct H as [H|H]; [discriminate H|]). exact H.
  - cbn. intros H. repeat (destruct H as [H|H]; [discriminate H|]). exact H.
  - cbn. intros H. repeat (destruct H as [H|H]; [discriminate H|]). exact H.
  - cbn. intros H. repeat (destruct H as [H|H]; [discriminate H|]). exact H.
  - right. eexists. reflexivity.
Defined.

(** A substitution passes over a character at which the pattern does not
    match. *)
Lemma sub_skip_one (r : regex) (repl : str) (a : ascii) (t : str) (p : option ascii)
    (f : nat) :
  rmatch r (MState p (a :: t) []) (fun e => Some e) = None ->
  sub_from (S f) r repl false p (a :: t) = a :: sub_from (S f) r repl false (Some a) t.
Proof.
  intros H. cbn [sub_from search_from andb]. rewrite H.
  destruct (search_from r false (Some a) t) as [[sk e]|]; [|reflexivity].
  change (a :: sk) with ([a] ++ sk). change (a :: t) with ([a] ++ t) at 1.
  now rewrite empty_match_app.
Qed.

(** The text does not go on with the character [c]. *)
Definition not_next (c : ascii) (t : str) : Prop :=
  match t with [] => True | x :: _ => x <> c end.

Lemma line_comment_one_slash (t : str) (p : option ascii) (cs : list (nat * str))
    (k : mstate -> option mstate) :
  not_next slash t -> rmatch line_comment_pattern (MState p (slash :: t) cs) k = None.
Proof.
  intros Ht. unfold line_comment_pattern, kw. cbn [seqs L list_ascii_of_string lit].
  unfold chr. cbn [rmatch rest]. change (eqc "/" slash) with true. cbn iota.
  destruct t as [|x t]; [reflexivity|]. cbn [rest]. fold slash.
  now rewrite (eqc_neq (not_eq_sym Ht)).
Qed.

(** [\*/], the end of the block-comment pattern. *)
Definition block_close : regex := kw "*/".

Lemma block_close_match (post : str) (p : option ascii) (cs : list (nat * str))
    (k : mstate -> option mstate) :
  rmatch block_close (MState p (star :: slash :: post) cs) k =
  k (MState (Some slash) post cs).
Proof. reflexivity. Qed.

Lemma block_close_fails (a : ascii) (t : str) (p : option ascii) (cs : list (nat * str))
    (k : mstate -> option mstate) :
  not_next slash t -> rmatch block_close (MState p (a :: t) cs) k = None.
Proof.
  intros Ht. unfold block_close, kw. cbn [L list_ascii_of_string lit].
  unfold chr. cbn [rmatch rest].
  destruct (eqc "*" a); [|reflexivity].
  destruct t as [|x t]; [reflexivity|]. cbn [rest caps]. fold slash.
  now rewrite (eqc_neq (not_eq_sym Ht)).
Qed.

Lemma not_next_run (run post : str) :
  ~ In slash run -> not_next slash (run ++ star :: slash :: post).
Proof.
  destruct run as [|x run]; cbn; [discriminate|]. intros H E. apply H. now left.
Qed.

(** Lazy repetition of any character, followed by the closing of a block
    comment, reads a run without slash up to the first closing. *)
Lemma lazy_to_close (run : str) :
  forall n p post cs k x,
    ~ In slash run -> length run <= n ->
    k (MState (Some slash) post cs) = Some x ->
    lazy_loop (rmatch dot_all) (fun st => rmatch block_close st k) n
      (MState p (run ++ star :: slash :: post) cs) = Some x.
Proof.
  set (body := rmatch dot_all).
  induction run as [|a run IH]; intros n p post cs k x Hrun Hn Hk.
  - cbn [app]. destruct n as [|n]; cbn [lazy_loop]; rewrite block_close_match, Hk; reflexivity.
  - destruct n as [|n]; [cbn [length] in Hn; lia|].
    cbn [lazy_loop app].
    rewrite block_close_fails
      by (apply not_next_run; intros H; apply Hrun; now right).
    cbn [orelse]. unfold body at 1, dot_all. cbn [rmatch rest caps].
    unfold progressed at 1. cbn [rest]. rewrite ltb_length_cons.
    apply IH; auto.
    + intros H. apply Hrun. now right.
    + cbn [length] in Hn. lia.
Qed.

(** At the opening of a block comment without slash inside, the pattern
    matches up to its closing. *)
Lemma block_comment_match (comment post : str) (p : option ascii)
    (cs : list (nat * str)) (k : mstate -> option mstate) (x : mstate) :
  ~ In slash comment ->
  k (MState (Some slash) post cs) = Some x ->
  rmatch block_comment_pattern
    (MState p (slash :: star :: comment ++ star :: slash :: post) cs) k = Some x.
Proof.
  intros Hc Hk.
  unfold block_comment_pattern. cbn [seqs]. unfold kw at 1.
  cbn [L list_ascii_of_string lit]. unfold chr. cbn [rmatch rest caps].
  change (eqc "/" slash) with true. change (eqc "*" star) with true. cbn iota.
  apply lazy_to_close; auto. rewrite length_app. lia.
Qed.

Lemma block_comment_head (a : ascii) (s : str) (p : option ascii)
    (cs : list (nat * str)) (k : mstate -> option mstate) :
  a <> slash -> rmatch block_comment_pattern (MState p (a :: s) cs) k = None.
Proof.
  intros Ha. unfold block_comment_pattern. cbn [seqs]. unfold kw at 1.
  cbn [L list_ascii_of_string lit]. unfold chr. cbn [rmatch rest].
  fold slash. now rewrite (eqc_neq (not_eq_sym Ha)).
Qed.

Lemma sub_block_comment_step (repl comment post : str) (p : option ascii) (f : nat) :
  ~ In slash comment ->
  sub_from (S f) block_comment_pattern repl false p
    (slash :: star :: comment ++ star :: slash :: post) =
  repl ++ sub_from f block_comment_pattern repl false (Some slash) post.
Proof.
  intros Hc. cbn [sub_from search_from].
  rewrite (@block_comment_match comment post p [] _ (MState (Some slash) post []) Hc)
    by reflexivity.
  cbn [app prev rest].
  replace (empty_match _ _ _) with false; [reflexivity|].
  symmetry. unfold empty_match. apply Nat.eqb_neq. cbn [rest length].
  rewrite length_app. cbn [length]. lia.
Qed.

Lemma sub_from_sub (r : regex) (repl s : str) (p : option ascii) (f : nat) :
  no_lookbehind r = true -> scan_measure false s < f ->
  sub_from f r repl false p s = sub r repl s.
Proof.
  intros Hr Hf. unfold sub.
  rewrite (@sub_from_same r repl Hr f false p None s).
  apply sub_from_fuel; [exact Hf|]. unfold scan_measure, scan_fuel. lia.
Qed.

Lemma scan_fuel_succ (s : str) : scan_fuel s = S (S (2 * length s)).
Proof. unfold scan_fuel. lia. Qed.

Lemma scan_measure_fuel (a b : str) : scan_measure false b < scan_fuel (a ++ b).
Proof. unfold scan_measure, scan_fuel. rewrite length_app. lia. Qed.

(** The substitution for line comments leaves text without a slash as it
    is and goes on after it. *)
Lemma strip_line_comments_skip (pre t : str) :
  ~ In slash pre ->
  strip_line_comments (pre ++ t) = pre ++ strip_line_comments t.
Proof.
  intros Hpre. unfold strip_line_comments. unfold sub at 1. rewrite scan_fuel_succ.
  rewrite (@sub_first_skip line_comment_pattern slash line_comment_head) by exact Hpre.
  f_equal. rewrite <- scan_fuel_succ. apply sub_from_sub; [reflexivity|].
  apply scan_measure_fuel.
Qed.

Lemma strip_line_comments_slash (t : str) :
  not_next slash t ->
  strip_line_comments (slash :: t) = slash :: strip_line_comments t.
Proof.
  intros Ht. unfold strip_line_comments. unfold sub at 1. rewrite scan_fuel_succ.
  rewrite sub_skip_one by now apply line_comment_one_slash.
  f_equal. rewrite <- scan_fuel_succ. apply sub_from_sub; [reflexivity|].
  apply (scan_measure_fuel [slash] t).
Qed.

Lemma strip_block_comments_skip (pre t : str) :
  ~ In slash pre ->
  strip_block_comments (pre ++ t) = pre ++ strip_block_comments t.
Proof.
  intros Hpre. unfold strip_block_comments. unfold sub at 1. rewrite scan_fuel_succ.
  rewrite (@sub_first_skip block_comment_pattern slash block_comment_head) by exact Hpre.
  f_equal. rewrite <- scan_fuel_succ. apply sub_from_sub; [reflexivity|].
  apply scan_measure_fuel.
Qed.

Lemma strip_block_comments_comment (comment post : str) :
  ~ In slash comment ->
  strip_block_comments (slash :: star :: comment ++ star :: slash :: post) =
  strip_block_comments post.
Proof.
  intros Hc. unfold strip_block_comments. unfold sub at 1. rewrite scan_fuel_succ.
  rewrite sub_block_comment_step by exact Hc. cbn [app].
  apply sub_from_sub; [reflexivity|].
  unfold scan_measure. lengths. lia.
Qed.

(** A block comment as it stands in a text. *)
Definition block_comment (comment : str) : str :=
  slash :: star :: comment ++ [star; slash].

Lemma block_comment_app (comment post : str) :
  block_comment comment ++ post = slash :: star :: comment ++ star :: slash :: post.
Proof. unfold block_comment. cbn [app]. now rewrite <- app_assoc. Qed.

(** X7: a block comment is not counted: when the comment and the text
    before it hold no slash, the text after it does not begin with one,
    and the body holds no quote of either kind, the score is that of the
    body without the comment. *)
Theorem block_comment_is_not_counted (pre comment post : str) :
  ~ In dquote (pre ++ comment ++ post) ->
  ~ In squote (pre ++ comment ++ post) ->
  ~ In slash pre -> ~ In slash comment -> not_next slash post ->
  calculate_mccabe_complexity (pre ++ block_comment comment ++ post) =
  calculate_mccabe_complexity (pre ++ post).
Proof.
  intros Hd Hs Hpre Hc Hpost.
  destruct (not_in_app3 _ _ _ _ Hd) as [Hd1 [Hd2 Hd3]].
  destruct (not_in_app3 _ _ _ _ Hs) as [Hs1 [Hs2 Hs3]].
  unfold calculate_mccabe_complexity, normalize.
  rewrite block_comment_app.
  assert (Hq : forall q, q <> slash -> q <> star ->
                 ~ In q pre -> ~ In q comment -> ~ In q post ->
                 ~ In q (pre ++ slash :: star :: comment ++ star :: slash :: post) /\
                 ~ In q (pre ++ post)).
  { intros q Hq1 Hq2 H1 H2 H3. split; intros Hin; apply in_app_or in Hin.
    - destruct Hin as [Hin|[Hin|[Hin|Hin]]]; auto.
      apply in_app_or in Hin. destruct Hin as [Hin|[Hin|[Hin|Hin]]]; auto.
    - tauto. }
  destruct (Hq dquote ltac:(discriminate) ltac:(discriminate) Hd1 Hd2 Hd3) as [Hd' Hd''].
  destruct (Hq squote ltac:(discriminate) ltac:(discriminate) Hs1 Hs2 Hs3) as [Hs' Hs''].
  rewrite !strip_strings_without_quote by assumption.
  rewrite !strip_chars_without_quote by assumption.
  rewrite !strip_line_comments_skip by exact Hpre.
  rewrite strip_line_comments_slash by (cbn; discriminate).
  change (star :: comment ++ star :: slash :: post)
    with ((star :: comment) ++ star :: slash :: post).
  rewrite (strip_line_comments_skip (star :: comment) (star :: slash :: post))
    by (intros [H|H]; [discriminate H|now apply Hc]).
  change (strip_line_comments (star :: slash :: post))
    with (strip_line_comments ([star] ++ slash :: post)).
  rewrite (strip_line_comments_skip [star] (slash :: post))
    by (intros [H|[]]; discriminate H).
  rewrite strip_line_comments_slash by exact Hpost.
  cbn [app].
  rewrite !strip_block_comments_skip by exact Hpre.
  now rewrite strip_block_comments_comment.
Qed.

Lemma block_comment_is_not_counted_witness :
  calculate_mccabe_complexity
    (L "x = 1; " ++ block_comment (L " if (a && b) ? c : d ") ++ L " y = 2;") =
  calculate_mccabe_complexity (L "x = 1; " ++ L " y = 2;").
Proof.
  apply block_comment_is_not_counted.
  - cbn. intros H. repeat (destruct H as [H|H]; [discriminate H|]). exact H.
  - cbn. intros H. repeat (destruct H as [H|H]; [discriminate H|]). exact H.
  - cbn. intros H. repeat (destruct H as [H|H]; [discriminate H|]). exact H.
  - cbn. intros H. repeat (destruct H as [H|H]; [discriminate H|]). exact H.
  - cbn. discriminate.
Defined.

(** * The driver: [analyze_file], [get_complexity_rating] and the figures
    of [main] *)

Module Report.

(** [MethodInfo] *)
Record MethodInfo : Type := Info {
  file_path : str;
  class_name : str;
  method_name : str;
  complexity : Z;
  start_line : nat
}.


(** The four strings that [get_complexity_rating] returns, each named by
    the English word it ends with. *)
Inductive rating : Type := Simple | Moderate | Complex | VeryComplex.

Definition get_complexity_rating (complexity : Z) : rating :=
  if (complexity <=? 5)%Z then Simple
  else if (complexity <=? 10)%Z then Moderate
  else if (complexity <=? 20)%Z then Complex
  else VeryComplex.

(** [sum(1 for c in complexities if test(c))] *)
Definition count_if (test : Z -> bool) (complexities : list Z) : nat :=
  fold_left (fun n c => if test c then n + 1 else n) complexities 0.

(** The four counts by category of [main]. *)
Definition simple (cs : list Z) : nat := count_if (fun c => (c <=? 5)%Z) cs.
Definition moderate (cs : list Z) : nat := count_if (fun c => (5 <? c)%Z && (c <=? 10)%Z) cs.
Definition complex_count (cs : list Z) : nat :=
  count_if (fun c => (10 <? c)%Z && (c <=? 20)%Z) cs.
Definition very_complex (cs : list Z) : nat := count_if (fun c => (20 <? c)%Z) cs.

(** [max(xs)] and [min(xs)], which raise on an empty list. *)
Definition list_max (xs : list Z) : option Z :=
  match xs with
  | [] => None
  | x :: xs' => Some (fold_left Z.max xs' x)
  end.

Definition list_min (xs : list Z) : option Z :=
  match xs with
  | [] => None
  | x :: xs' => Some (fold_left Z.min xs' x)
  end.

(** [all_methods.sort(key=lambda m: m.complexity, reverse=True)]: the
    sort is stable, also in reverse, so its result is that of inserting
    each method, from the last to the first, before the first method that
    is not more complex. *)
Fixpoint insert_method (m : MethodInfo) (sorted : list MethodInfo) : list MethodInfo :=
  match sorted with
  | [] => [m]
  | x :: sorted' =>
      if (complexity m <? complexity x)%Z then x :: insert_method m sorted'
      else m :: x :: sorted'
  end.

Definition sort_methods (all_methods : list MethodInfo) : list MethodInfo :=
  fold_right insert_method [] all_methods.

(** [all_methods[:10]] *)
Definition top_ten (all_methods : list MethodInfo) : list MethodInfo :=
  firstn 10 all_methods.

End Report.



Lemma count_if_filter (test : Z -> bool) (cs : list Z) :
  Report.count_if test cs = length (filter test cs).
Proof.
  unfold Report.count_if.
  assert (H : forall n, fold_left (fun n c => if test c then n + 1 else n) cs n =
                        n + length (filter test cs)).
  { induction cs as [|c cs IH]; intros n; cbn [fold_left filter]; [cbn; lia|].
    rewrite IH. destruct (test c); cbn [length]; lia. }
  apply H.
Qed.

Definition rating_eqb (a b : Report.rating) : bool :=
  match a, b with
  | Report.Simple, Report.Simple
  | Report.Moderate, Report.Moderate
  | Report.Complex, Report.Complex
  | Report.VeryComplex, Report.VeryComplex => true
  | _, _ => false
  end.

(** The number of methods to which [get_complexity_rating] gives the
    rating [r]. *)
Definition rated (r : Report.rating) (ms : list Report.MethodInfo) : nat :=
  length (filter (fun m => rating_eqb (Report.get_complexity_rating (Report.complexity m)) r)
            ms).

Lemma filter_map_length (A B : Type) (f : B -> bool) (g : A -> B) (xs : list A) :
  length (filter f (map g xs)) = length (filter (fun x => f (g x)) xs).
Proof.
  induction xs as [|x xs IH]; cbn [map filter]; [reflexivity|].
  destruct (f (g x)); cbn [length]; now rewrite IH.
Qed.

Lemma filter_length_cons (A : Type) (f : A -> bool) (x : A) (xs : list A) :
  length (filter f (x :: xs)) = (if f x then 1 else 0) + length (filter f xs).
Proof. cbn [filter]. now destruct (f x). Qed.

Lemma rating_tests (c : Z) :
  (c <=? 5)%Z = rating_eqb (Report.get_complexity_rating c) Report.Simple /\
  ((5 <? c)%Z && (c <=? 10)%Z) = rating_eqb (Report.get_complexity_rating c) Report.Moderate /\
  ((10 <? c)%Z && (c <=? 20)%Z) = rating_eqb (Report.get_complexity_rating c) Report.Complex /\
  (20 <? c)%Z = rating_eqb (Report.get_complexity_rating c) Report.VeryComplex.
Proof.
  unfold Report.get_complexity_rating.
  destruct (Z.leb_spec c 5), (Z.leb_spec c 10), (Z.leb_spec c 20),
    (Z.ltb_spec 5 c), (Z.ltb_spec 10 c), (Z.ltb_spec 20 c);
    try lia; cbn; auto.
Qed.

Lemma one_rating (c : Z) :
  (if rating_eqb (Report.get_complexity_rating c) Report.Simple then 1 else 0) +
  (if rating_eqb (Report.get_complexity_rating c) Report.Moderate then 1 else 0) +
  (if rating_eqb (Report.get_complexity_rating c) Report.Complex then 1 else 0) +
  (if rating_eqb (Report.get_complexity_rating c) Report.VeryComplex then 1 else 0) = 1.
Proof. now destruct (Report.get_complexity_rating c). Qed.

Lemma rated_partition (ms : list Report.MethodInfo) :
  rated Report.Simple ms + rated Report.Moderate ms + rated Report.Complex ms
  + rated Report.VeryComplex ms = length ms.
Proof.
  unfold rated. induction ms as [|m ms IH]; [reflexivity|].
  rewrite !filter_length_cons. cbn [length].
  pose proof (one_rating (Report.complexity m)). lia.
Qed.

Lemma count_if_rated (test : Z -> bool) (r : Report.rating) (ms : list Report.MethodInfo) :
  (forall c, test c = rating_eqb (Report.get_complexity_rating c) r) ->
  Report.count_if test (map Report.complexity ms) = rated r ms.
Proof.
  intros H. rewrite count_if_filter, filter_map_length. unfold rated.
  f_equal. apply filter_ext. intros m. apply H.
Qed.

(** X9: the four counts by category of [main] add up to the number of
    methods, and each is the number of methods to which
    [get_complexity_rating] gives the rating of that category. *)
Theorem category_counts_partition (ms : list Report.MethodInfo) :
  Report.simple (map Report.complexity ms) + Report.moderate (map Report.complexity ms)
  + Report.complex_count (map Report.complexity ms)
  + Report.very_complex (map Report.complexity ms) = length ms /\
  Report.simple (map Report.complexity ms) = rated Report.Simple ms /\
  Report.moderate (map Report.complexity ms) = rated Report.Moderate ms /\
  Report.complex_count (map Report.complexity ms) = rated Report.Complex ms /\
  Report.very_complex (map Report.complexity ms) = rated Report.VeryComplex ms.
Proof.
  assert (H1 : Report.simple (map Report.complexity ms) = rated Report.Simple ms)
    by (apply count_if_rated; intros c; apply rating_tests).
  assert (H2 : Report.moderate (map Report.complexity ms) = rated Report.Moderate ms)
    by (apply count_if_rated; intros c; apply rating_tests).
  assert (H3 : Report.complex_count (map Report.complexity ms) = rated Report.Complex ms)
    by (apply count_if_rated; intros c; apply rating_tests).
  assert (H4 : Report.very_complex (map Report.complexity ms) = rated Report.VeryComplex ms)
    by (apply count_if_rated; intros c; apply rating_tests).
  repeat split; auto.
  rewrite H1, H2, H3, H4. apply rated_partition.
Qed.

(** ** The sorted report *)

Definition not_less (a b : Report.MethodInfo) : Prop :=
  (Report.complexity b <= Report.complexity a)%Z.

Lemma insert_method_perm (m : Report.MethodInfo) (l : list Report.MethodInfo) :
  Permutation (m :: l) (Report.insert_method m l).
Proof.
  induction l as [|x l IH]; cbn [Report.insert_method]; [reflexivity|].
  destruct (_ <? _)%Z; [|reflexivity].
  rewrite perm_swap. now constructor.
Qed.

Lemma insert_method_sorted (m : Report.MethodInfo) (l : list Report.MethodInfo) :
  StronglySorted not_less l -> StronglySorted not_less (Report.insert_method m l).
Proof.
  induction 1 as [|x l Hs IH Hx]; cbn [Report.insert_method].
  - repeat constructor.
  - destruct (Z.ltb_spec (Report.complexity m) (Report.complexity x)) as [Hlt|Hge].
    + constructor; [exact IH|].
      rewrite <- (insert_method_perm m l). constructor; [|exact Hx].
      unfold not_less. lia.
    + constructor; [now constructor|]. constructor; [exact Hge|].
      eapply Forall_impl; [|exact Hx]. unfold not_less. intros b Hb. lia.
Qed.

Lemma insert_method_stable (m : Report.MethodInfo) (l : list Report.MethodInfo) (c : Z) :
  filter (fun x => (Report.complexity x =? c)%Z) (Report.insert_method m l) =
  filter (fun x => (Report.complexity x =? c)%Z) (m :: l).
Proof.
  induction l as [|x l IH]; cbn [Report.insert_method]; [reflexivity|].
  destruct (Z.ltb_spec (Report.complexity m) (Report.complexity x)) as [Hlt|Hge];
    [|reflexivity].
  cbn [filter] in *. rewrite IH.
  destruct (Z.eqb_spec (Report.complexity x) c), (Z.eqb_spec (Report.complexity m) c);
    try reflexivity. lia.
Qed.

Lemma sort_methods_perm (ms : list Report.MethodInfo) :
  Permutation ms (Report.sort_methods ms).
Proof.
  induction ms as [|m ms IH]; cbn; [constructor|].
  rewrite <- insert_method_perm. now constructor.
Qed.

Lemma sort_methods_sorted (ms : list Report.MethodInfo) :
  StronglySorted not_less (Report.sort_methods ms).
Proof.
  induction ms as [|m ms IH]; cbn; [constructor|]. now apply insert_method_sorted.
Qed.

Lemma sort_methods_stable (ms : list Report.MethodInfo) (c : Z) :
  filter (fun x => (Report.complexity x =? c)%Z) (Report.sort_methods ms) =
  filter (fun x => (Report.complexity x =? c)%Z) ms.
Proof.
  induction ms as [|m ms IH]; [reflexivity|].
  cbn [Report.sort_methods fold_right]. rewrite insert_method_stable.
  cbn [filter]. fold (Report.sort_methods ms). now rewrite IH.
Qed.

Lemma fold_max_spec (xs : list Z) (x : Z) :
  (In (fold_left Z.max xs x) (x :: xs)) /\
  forall y, In y (x :: xs) -> (y <= fold_left Z.max xs x)%Z.
Proof.
  revert x. induction xs as [|a xs IH]; intros x; cbn [fold_left].
  - split; [now left|]. intros y [<-|[]]. lia.
  - destruct (IH (Z.max x a)) as [Hin Hle]. split.
    + destruct Hin as [Hin|Hin]; [|right; now right].
      rewrite <- Hin. destruct (Z.max_spec x a) as [[_ ->]|[_ ->]]; cbn; auto.
    + intros y [E|[E|Hy]].
      * specialize (Hle (Z.max x a) (or_introl eq_refl)). lia.
      * specialize (Hle (Z.max x a) (or_introl eq_refl)). lia.
      * apply Hle. now right.
Qed.

Lemma fold_min_spec (xs : list Z) (x : Z) :
  (In (fold_left Z.min xs x) (x :: xs)) /\
  forall y, In y (x :: xs) -> (fold_left Z.min xs x <= y)%Z.
Proof.
  revert x. induction xs as [|a xs IH]; intros x; cbn [fold_left].
  - split; [now left|]. intros y [<-|[]]. lia.
  - destruct (IH (Z.min x a)) as [Hin Hle]. split.
    + destruct Hin as [Hin|Hin]; [|right; now right].
      rewrite <- Hin. destruct (Z.min_spec x a) as [[_ ->]|[_ ->]]; cbn; auto.
    + intros y [E|[E|Hy]].
      * specialize (Hle (Z.min x a) (or_introl eq_refl)). lia.
      * specialize (Hle (Z.min x a) (or_introl eq_refl)). lia.
      * apply Hle. now right.
Qed.

Lemma last_cons (A : Type) (l : list A) :
  forall a x, last (a :: l) x = last l a.
Proof.
  induction l as [|b l IH]; intros a x; [reflexivity|].
  change (last (a :: b :: l) x) with (last (b :: l) x).
  now rewrite !IH.
Qed.

Lemma sorted_last_least (l : list Report.MethodInfo) (x : Report.MethodInfo) :
  StronglySorted not_less (x :: l) ->
  In (last l x) (x :: l) /\ forall y, In y (x :: l) -> not_less y (last l x).
Proof.
  revert x. induction l as [|a l IH]; intros x Hs.
  - cbn. split; [now left|]. intros y [<-|[]]. unfold not_less. lia.
  - inversion Hs as [|? ? Hs' Hx]; subst.
    destruct (IH a Hs') as [Hin Hle].
    rewrite last_cons.
    split; [now right|].
    intros y [<-|Hy]; [|now apply Hle].
    rewrite Forall_forall in Hx. now apply Hx.
Qed.

Lemma sorted_split (n : nat) (l : list Report.MethodInfo) :
  StronglySorted not_less l ->
  forall a b, In a (firstn n l) -> In b (skipn n l) -> not_less a b.
Proof.
  intros Hs. revert n. induction Hs as [|x l Hs IH Hx]; intros n a b Ha Hb.
  - destruct n; destruct Ha.
  - destruct n as [|n]; [destruct Ha|].
    cbn [firstn skipn] in Ha, Hb. destruct Ha as [<-|Ha].
    + rewrite Forall_forall in Hx. apply Hx.
      rewrite <- (firstn_skipn n l). apply in_or_app. now right.
    + eapply IH; eauto.
Qed.

(** X10: the report is sorted by complexity, highest first.  The sorted
    list holds the same records as the list given, no record comes before
    a more complex one, records of equal complexity keep their order, no
    record after the first ten is more complex than one of these, and the
    first and the last record carry the maximum and the minimum that
    [main] prints. *)
Theorem sorted_report (ms : list Report.MethodInfo) :
  Permutation ms (Report.sort_methods ms) /\
  StronglySorted not_less (Report.sort_methods ms) /\
  (forall c,
     filter (fun m => (Report.complexity m =? c)%Z) (Report.sort_methods ms) =
     filter (fun m => (Report.complexity m =? c)%Z) ms) /\
  (forall a b,
     In a (Report.top_ten (Report.sort_methods ms)) ->
     In b (skipn 10 (Report.sort_methods ms)) -> not_less a b) /\
  (forall first others,
     Report.sort_methods ms = first :: others ->
     Report.list_max (map Report.complexity ms) = Some (Report.complexity first) /\
     Report.list_min (map Report.complexity ms) =
       Some (Report.complexity (last others first))).
Proof.
  pose proof (sort_methods_perm ms) as Hp.
  pose proof (sort_methods_sorted ms) as Hs.
  split; [exact Hp|]. split; [exact Hs|]. split; [apply sort_methods_stable|].
  split; [apply sorted_split; exact Hs|].
  intros first others E. rewrite E in Hp, Hs.
  destruct ms as [|m ms]; [apply Permutation_nil in Hp; discriminate|].
  cbn [map Report.list_max Report.list_min].
  destruct (fold_max_spec (map Report.complexity ms) (Report.complexity m)) as [Hin Hmax].
  destruct (fold_min_spec (map Report.complexity ms) (Report.complexity m)) as [Hin' Hmin].
  change (Report.complexity m :: map Report.complexity ms)
    with (map Report.complexity (m :: ms)) in *.
  assert (Hmem : forall x, In x (first :: others) ->
                   In (Report.complexity x) (map Report.complexity (m :: ms))).
  { intros x Hx. apply in_map. eapply Permutation_in; [symmetry; exact Hp|exact Hx]. }
  assert (Hback : forall c, In c (map Report.complexity (m :: ms)) ->
                    exists x, In x (first :: others) /\ Report.complexity x = c).
  { intros c Hc. apply in_map_iff in Hc. destruct Hc as [x [Hx Hin0]].
    exists x. split; [eapply Permutation_in; eauto|exact Hx]. }
  inversion Hs as [|? ? Hs' Hfirst]; subst.
  destruct (sorted_last_least Hs) as [Hlast Hleast].
  split; f_equal.
  - apply Z.le_antisymm.
    + destruct (Hback _ Hin) as [x [[<-|Hx] Hc]]; [lia|].
      rewrite Forall_forall in Hfirst. specialize (Hfirst x Hx). unfold not_less in Hfirst. lia.
    + apply Hmax. apply Hmem. now left.
  - apply Z.le_antisymm.
    + apply Hmin. apply Hmem. exact Hlast.
    + destruct (Hback _ Hin') as [x [Hx Hc]].
      specialize (Hleast x Hx). unfold not_less in Hleast. lia.
Qed.

(** * Finding the files: [find_cs_files] *)

Module Files.

(** What [os.walk] sees of a directory: its sub-directories, by name, and
    the names of its files, both in the order in which it lists them. *)
#[local] Unset Elimination Schemes.


#[local] Set Elimination Schemes.



Section Walk.

(** [os.path.join], which depends on the platform. *)
Variable join : str -> str -> str.



End Walk.

End Files.





(** * The text of the entries *)

Lemma method_on_keywords (line name : str) :
  method_on line = Some name ->
  Forall (fun kw => Str.contains kw line = false) declaration_keywords.
Proof.
  unfold method_on.
  destruct (search method_signature_pattern line) as [[sk m]|]; [|discriminate].
  destruct (existsb _ _) eqn:E; [discriminate|]. intros _.
  rewrite Forall_forall. intros kw Hkw.
  destruct (Str.contains kw line) eqn:Hc; [|reflexivity].
  assert (existsb (fun kw => Str.contains kw line) declaration_keywords = true)
    by (apply existsb_exists; eauto).
  congruence.
Qed.

(** X12: no entry starts on a line that holds one of the words [class],
    [interface], [struct], [enum] and [namespace] followed by a blank: a
    method whose signature shares its line with such a word is not
    extracted. *)
Theorem extract_methods_skips_declaration_lines (content file_path : str) :
  exists ms,
    extract_methods content file_path = Ok ms /\
    Forall
      (fun e =>
         exists line,
           nth_error (Str.split_lines content) (start_line e - 1) = Some line /\
           Forall (fun kw => Str.contains kw line = false)
             (map L ["class "; "interface "; "struct "; "enum "; "namespace "]%string))
      ms.
Proof.
  destruct (extract_methods_laid_out content file_path) as [ms [Hms [Hok _]]].
  exists ms. split; [exact Hms|].
  eapply Forall_impl; [|exact Hok].
  intros e [_ [[line [Hn [_ Hm]]] _]].
  exists line. split; [exact Hn|]. now apply method_on_keywords in Hm.
Qed.

Lemma split_lines_not_nil (s : str) : Str.split_lines s <> [].
Proof.
  destruct s as [|c s]; cbn [Str.split_lines]; [discriminate|].
  destruct (eqc c newline); [discriminate|].
  destruct (Str.split_lines s); discriminate.
Qed.

(** Splitting a text into lines and joining them gives the text back. *)
Lemma join_split_lines (s : str) : Str.join_lines (Str.split_lines s) = s.
Proof.
  induction s as [|c s IH]; [reflexivity|].
  cbn [Str.split_lines].
  pose proof (split_lines_not_nil s) as Hne.
  destruct (eqc c newline) eqn:E.
  - apply Ascii.eqb_eq in E. subst c.
    destruct (Str.split_lines s) as [|l ls]; [contradiction|].
    cbn [Str.join_lines app] in *. now rewrite IH.
  - destruct (Str.split_lines s) as [|l ls]; [contradiction|].
    cbn [Str.join_lines] in *. destruct ls; cbn [app]; now rewrite IH.
Qed.

Lemma join_lines_cons (l : str) (ls : list str) :
  ls <> [] -> Str.join_lines (l :: ls) = l ++ newline :: Str.join_lines ls.
Proof. destruct ls; [contradiction|reflexivity]. Qed.

Lemma join_lines_app (xs ys : list str) :
  xs <> [] -> ys <> [] ->
  Str.join_lines (xs ++ ys) = Str.join_lines xs ++ newline :: Str.join_lines ys.
Proof.
  induction xs as [|x xs IH]; intros Hx Hy; [contradiction|].
  destruct xs as [|x' xs].
  - cbn [app]. now rewrite join_lines_cons.
  - change ((x :: x' :: xs) ++ ys) with (x :: ((x' :: xs) ++ ys)).
    rewrite join_lines_cons by discriminate.
    rewrite IH by (auto; discriminate).
    rewrite (join_lines_cons x) by discriminate.
    now rewrite <- app_assoc.
Qed.

(** The text of a block of lines stands as it is in the text of the
    lines around it. *)
Lemma join_lines_block (before block after : list str) :
  block <> [] ->
  exists head tail,
    Str.join_lines (before ++ block ++ after) = head ++ Str.join_lines block ++ tail.
Proof.
  intros Hb.
  destruct before as [|b bs], after as [|a ats].
  - exists [], []. cbn [app]. now rewrite !app_nil_r.
  - exists [], (newline :: Str.join_lines (a :: ats)). cbn [app].
    now rewrite join_lines_app by (auto; discriminate).
  - exists (Str.join_lines (b :: bs) ++ [newline]), [].
    rewrite !app_nil_r. rewrite join_lines_app by (auto; discriminate).
    now rewrite <- app_assoc.
  - exists (Str.join_lines (b :: bs) ++ [newline]), (newline :: Str.join_lines (a :: ats)).
    rewrite join_lines_app; [|discriminate|].
    + rewrite join_lines_app by (auto; discriminate).
      now rewrite <- !app_assoc.
    + destruct block; [contradiction|discriminate].
Qed.

(** X13: the body of every entry stands word for word in the input
    text, as one piece. *)
Theorem extract_methods_bodies_are_verbatim (content file_path : str) :
  exists ms,
    extract_methods content file_path = Ok ms /\
    Forall (fun e => exists head tail, content = head ++ method_body e ++ tail) ms.
Proof.
  destruct (extract_methods_laid_out content file_path) as [ms [Hms [Hok _]]].
  exists ms. split; [exact Hms|].
  eapply Forall_impl; [|exact Hok].
  intros e [Hr [_ Hb]].
  set (lines := Str.split_lines content) in *.
  set (start := start_line e - 1) in *.
  assert (Hstart : start < length lines) by (unfold start; lia).
  pose proof (body_end_spec lines Hstart) as [Hrange _].
  assert (Hne : body_lines lines start <> []).
  { unfold body_lines. intros E. apply (f_equal (@length str)) in E.
    rewrite length_firstn, length_skipn in E. cbn [length] in E. lia. }
  destruct (@join_lines_block (firstn start lines) (body_lines lines start)
              (skipn (body_end lines start - start) (skipn start lines)) Hne)
    as [head [tail E]].
  exists head, tail. rewrite Hb, <- E.
  unfold body_lines. rewrite firstn_skipn, firstn_skipn.
  symmetry. apply join_split_lines.
Qed.
